(** * panel-reader: upload pipeline, listing service and gallery fetcher

  A shallow embedding of [backend/src/app.ts] (the multer configuration,
  [POST /api/v1/uploads], [GET /api/v1/images] and the two error
  middlewares) and of the [useEffect] of the [Gallery] component, with
  the properties the specification states about them.

  Conventions.  JavaScript numbers that hold counts, sizes, timestamps
  and pixel dimensions are integers of [Z] (exact below 2^53; where the
  code reads a number from text, the rounding to a double is written
  out).  Strings
  are [string], read as sequences of 8-bit code units; character tests
  (white space, letter case) are the ASCII ones.  The upload directory is
  a finite map from storage names to the stored byte streams. *)

From Stdlib Require Import ZArith Lia Ascii String List Bool.
From Stdlib Require Import DecimalString Sorted Permutation.
From Stdlib Require DecimalZ.
From stdpp Require Import gmap strings list sorting.

Local Open Scope Z_scope.

(** ** JavaScript primitives used by the code *)

Module JS.

(** [x.toLowerCase()] on one code unit. *)
Definition is_upper (c : ascii) : bool :=
  ((65 <=? N_of_ascii c) && (N_of_ascii c <=? 90))%N.

Definition lower_ascii (c : ascii) : ascii :=
  if is_upper c then ascii_of_N (N_of_ascii c + 32) else c.

Definition toLowerCase (s : string) : string :=
  string_of_list_ascii (map lower_ascii (list_ascii_of_string s)).

(** [String(n)] / template-literal interpolation of an integer number
    below 10^21 in magnitude (plain decimal digits, a leading minus sign
    when negative). *)
Definition number_to_string (z : Z) : string :=
  NilZero.string_of_int (Z.to_int z).

(** [StrWhiteSpaceChar] restricted to ASCII: TAB, LF, VT, FF, CR, SP. *)
Definition is_space (c : ascii) : bool :=
  let n := N_of_ascii c in ((9 <=? n) && (n <=? 13) || (n =? 32))%N.

Definition digit_value (c : ascii) : option Z :=
  let n := N_of_ascii c in
  if ((48 <=? n) && (n <=? 57))%N then Some (Z.of_N n - 48) else None.

Fixpoint skip_spaces (l : list ascii) : list ascii :=
  match l with
  | c :: l' => if is_space c then skip_spaces l' else l
  | [] => []
  end.

(** The longest prefix of decimal digits, read with accumulator [acc];
    [seen] records whether a digit was read at all. *)
Fixpoint read_digits (l : list ascii) (seen : bool) (acc : Z) : option Z :=
  match l with
  | c :: l' =>
      match digit_value c with
      | Some d => read_digits l' true (10 * acc + d)
      | None => if seen then Some acc else None
      end
  | [] => if seen then Some acc else None
  end.

(** The integer that the digits of [s] denote, with its sign ([mathInt]
    in the definition of [parseInt]); [None] when no digit is found. *)
Definition mathInt (s : string) : option Z :=
  match skip_spaces (list_ascii_of_string s) with
  | "-"%char :: l => option_map Z.opp (read_digits l false 0)
  | "+"%char :: l => read_digits l false 0
  | l => read_digits l false 0
  end.

(** The Number value of an integer: the nearest double, ties going to the
    even significand.  A double keeps 53 significant bits, so an integer
    of magnitude up to 2^53 is its own Number value and a larger one
    loses its low bits.  (Beyond the largest double, about 1.8e308, the
    code gets [Infinity], which has no integer here.) *)
Definition to_double (z : Z) : Z :=
  let a := Z.abs z in
  let e := Z.log2 a in
  if e <? 53 then z
  else
    let sh := e - 52 in
    let q := Z.shiftr a sh in
    let r := Z.land a (Z.ones sh) in
    let half := Z.shiftl 1 (sh - 1) in
    let q' := if (half <? r) || ((r =? half) && Z.odd q) then q + 1 else q in
    Z.sgn z * Z.shiftl q' sh.

(** [parseInt(s, 10)]; [None] is [NaN]. *)
Definition parseInt (s : string) : option Z :=
  option_map to_double (mathInt s).

(** [x || d] for a number [x] that may be [NaN]: [NaN] and [0] are falsy. *)
Definition number_or (x : option Z) (d : Z) : Z :=
  match x with
  | Some n => if n =? 0 then d else n
  | None => d
  end.

(** [s || d] for a string (the empty string is falsy). *)
Definition string_or (s d : string) : string :=
  if decide (s = "") then d else s.

End JS.

(** ** Node's [path.extname] (POSIX flavour)

  Node scans the path from its end: trailing slashes are skipped, the
  scan stops at the first slash after that, and the extension runs from
  the right-most dot of that last component to its end.  The result is
  empty when the component has no dot, when the dot is its first
  character, or when the component is exactly [".."].  [extname_chars]
  says this component by component; [extname_scan] is the loop as Node
  writes it, and the two are proved equal below. *)

Module Path.

Definition is_slash (c : ascii) : bool := Ascii.eqb c "/".
Definition is_dot (c : ascii) : bool := Ascii.eqb c ".".

Fixpoint drop_slashes (r : list ascii) : list ascii :=
  match r with
  | c :: r' => if is_slash c then drop_slashes r' else r
  | [] => []
  end.

(** The last path component, reversed: characters up to the next slash. *)
Fixpoint component (r : list ascii) : list ascii :=
  match r with
  | c :: r' => if is_slash c then [] else c :: component r'
  | [] => []
  end.

(** Splits a reversed component at its first dot: the characters after
    the dot (reversed) and the characters before it (reversed). *)
Fixpoint split_dot (r : list ascii) : option (list ascii * list ascii) :=
  match r with
  | c :: r' =>
      if is_dot c then Some ([], r')
      else match split_dot r' with
           | Some (e, b) => Some (c :: e, b)
           | None => None
           end
  | [] => None
  end.

Definition extname_chars (p : list ascii) : list ascii :=
  match split_dot (component (drop_slashes (rev p))) with
  | None => []
  | Some (e, b) =>
      match e, b with
      | _, [] => []
      | [], ["."%char] => []
      | _, _ => "."%char :: rev e
      end
  end.

Definition extname (p : string) : string :=
  string_of_list_ascii (extname_chars (list_ascii_of_string p)).

(** The same function written as Node writes it: one loop from the last
    index down, over the variables [startDot], [startPart], [end],
    [matchedSlash] and [preDotState], then [path.slice(startDot, end)]. *)
Record Scan := {
  startDot : Z;
  startPart : Z;
  end_ : Z;
  matchedSlash : bool;
  preDotState : Z;
}.

Definition scan_start : Scan :=
  {| startDot := -1; startPart := 0; end_ := -1; matchedSlash := true;
     preDotState := 0 |}.

(** One iteration at index [i] on character [code]; [inl] is [break]. *)
Definition scan_body (i : Z) (code : ascii) (s : Scan) : Scan + Scan :=
  if is_slash code then
    if negb (matchedSlash s)
    then inl {| startDot := startDot s; startPart := i + 1; end_ := end_ s;
                matchedSlash := matchedSlash s; preDotState := preDotState s |}
    else inr s
  else
    let s1 :=
      if end_ s =? -1
      then {| startDot := startDot s; startPart := startPart s; end_ := i + 1;
              matchedSlash := false; preDotState := preDotState s |}
      else s in
    if is_dot code then
      if startDot s1 =? -1
      then inr {| startDot := i; startPart := startPart s1; end_ := end_ s1;
                  matchedSlash := matchedSlash s1; preDotState := preDotState s1 |}
      else if negb (preDotState s1 =? 1)
      then inr {| startDot := startDot s1; startPart := startPart s1;
                  end_ := end_ s1; matchedSlash := matchedSlash s1;
                  preDotState := 1 |}
      else inr s1
    else if negb (startDot s1 =? -1)
    then inr {| startDot := startDot s1; startPart := startPart s1;
                end_ := end_ s1; matchedSlash := matchedSlash s1;
                preDotState := -1 |}
    else inr s1.

(** [for (let i = n - 1; i >= 0; --i)]. *)
Fixpoint scan_loop (n : nat) (path : list ascii) (s : Scan) : Scan :=
  match n with
  | O => s
  | S i =>
      match scan_body (Z.of_nat i) (nth i path "000"%char) s with
      | inl s' => s'
      | inr s' => scan_loop i path s'
      end
  end.

(** The same loop over the reversed path: the head of [r] is the character
    at index [length r - 1]. *)
Fixpoint scan_rev (r : list ascii) (s : Scan) : Scan :=
  match r with
  | [] => s
  | c :: r' =>
      match scan_body (Z.of_nat (length r')) c s with
      | inl s' => s'
      | inr s' => scan_rev r' s'
      end
  end.

(** The state inside the last component: [end] is set to [e], the slash
    flag is cleared, [startDot] and [preDotState] are as given. *)
Definition inside (e sd sp pd : Z) : Scan :=
  {| startDot := sd; startPart := sp; end_ := e; matchedSlash := false;
     preDotState := pd |}.

(** [preDotState] after the characters [b] that precede the dot (from the
    dot leftwards), starting from [pd]. *)
Fixpoint pre_dot (pd : Z) (b : list ascii) : Z :=
  match b with
  | [] => pd
  | c :: b' => pre_dot (if is_dot c then 1 else -1) b'
  end.

Definition extname_scan (path : list ascii) : list ascii :=
  let s := scan_loop (length path) path scan_start in
  if (startDot s =? -1) || (end_ s =? -1) || (preDotState s =? 0)
     || ((preDotState s =? 1) && (startDot s =? end_ s - 1)
         && (startDot s =? startPart s + 1))
  then []
  else take (Z.to_nat (end_ s - startDot s)) (drop (Z.to_nat (startDot s)) path).

(** A character that is neither the dot nor the slash. *)
Definition plain (c : ascii) : Prop := is_dot c = false /\ is_slash c = false.

(** A name that can be joined to a directory as one segment: it has no
    slash and no two dots in a row, and it is not empty. *)
Fixpoint free_of_traversal (l : list ascii) : bool :=
  match l with
  | c :: l' =>
      negb (is_slash c)
      && negb (is_dot c && match l' with d :: _ => is_dot d | [] => false end)
      && free_of_traversal l'
  | [] => true
  end.

Definition safe_segment (s : string) : bool :=
  match list_ascii_of_string s with
  | [] => false
  | l => free_of_traversal l
  end.

End Path.

(** ** Filename Allocator: multer's [diskStorage] [filename] callback *)

Module Allocator.

(** [`${Date.now()}-${Math.round(Math.random() * 1e9)}${ext}`] with
    [ext = path.extname(file.originalname).toLowerCase()]; [now] and
    [rnd] are the two numbers the callback draws. *)
Definition filename (now rnd : Z) (originalname : string) : string :=
  let ext := JS.toLowerCase (Path.extname originalname) in
  JS.number_to_string now +:+ "-" +:+ JS.number_to_string rnd +:+ ext.

(** The characters of the two parts of a storage name: the numbers with
    their dash, and the lower-cased extension. *)
Definition stem (now rnd : Z) : list ascii :=
  list_ascii_of_string (JS.number_to_string now)
  ++ "-"%char :: list_ascii_of_string (JS.number_to_string rnd).

Definition ext (originalname : string) : list ascii :=
  map JS.lower_ascii (Path.extname_chars (list_ascii_of_string originalname)).

End Allocator.

(** ** The server: upload directory, metadata store, request pipeline *)

Module Server.

(** Values read from the environment when the process starts. *)
Record Config := {
  PORT : string;
  PUBLIC_URL : option string;
  MAX_FILE_SIZE : Z;
}.

(** [process.env.PUBLIC_URL || `http://localhost:${PORT}`]. *)
Definition publicBase (cfg : Config) : string :=
  match PUBLIC_URL cfg with
  | Some u => JS.string_or u ("http://localhost:" +:+ PORT cfg)
  | None => "http://localhost:" +:+ PORT cfg
  end.

(** What [sizeOf] (image-size) makes of a byte stream: it throws, or it
    returns [{ width?: number; height?: number }]. *)
Inductive Probe :=
| Undecodable
| Dimensions (width height : option Z).

(** A byte stream, seen through its length and through what the decoder
    reads from it. *)
Record Blob := { blob_size : Z; blob_probe : Probe }.

(** A row of the [images] table. *)
Record Image := {
  id : string;
  filename : string;
  originalName : string;
  mimeType : string;
  size : Z;
  width : option Z;
  height : option Z;
  uploadedAt : Z;
  userId : string;
}.

(** The upload directory (storage name to bytes) and the [images] table. *)
Record State := {
  files : gmap string Blob;
  images : list Image;
}.

Definition set_files (st : State) (f : gmap string Blob) : State :=
  {| files := f; images := images st |}.

(** [fs.unlink(filePath, () => {})]. *)
Definition unlink (filePath : string) (st : State) : State :=
  set_files st (delete filePath (files st)).

(** [sizeOf(filePath)]; a missing file makes it throw as well. *)
Definition sizeOf (st : State) (filePath : string) : Probe :=
  match files st !! filePath with
  | Some b => blob_probe b
  | None => Undecodable
  end.

(** What one request draws from outside the handler: the clock and the
    random number of the filename callback, and the outcome of the two
    Prisma calls ([None] when the call throws; [create] returns the
    generated id and the [uploadedAt] default). *)
Record Env := {
  now : Z;
  rnd : Z;
  upsert_user : option string;
  create_image : option (string * Z);
}.

(** The file part of the multipart form. *)
Record Part := {
  fieldname : string;
  originalname : string;
  mimetype : string;
  content : Blob;
}.

(** [req.file] as multer's disk storage fills it. *)
Record File := {
  file_filename : string;
  file_originalname : string;
  file_mimetype : string;
  file_size : Z;
}.

(** Errors passed to [next]: multer's own, a plain [Error], a Prisma one. *)
Inductive Err :=
| MulterError (code message : string)
| PlainError (message : string)
| PrismaError.

(** The JSON shape of one image in the responses. *)
Record Descriptor := {
  d_id : string;
  d_filename : string;
  d_originalName : string;
  d_mimeType : string;
  d_size : Z;
  d_width : option Z;
  d_height : option Z;
  d_url : string;
  d_uploadedAt : Z;
}.

Inductive Body :=
| ErrorBody (error : string)
| ImageBody (d : Descriptor)
| PageBody (total limit offset : Z) (items : list Descriptor).

Record Response := { status : Z; body : Body }.

(** A middleware either answers or calls [next(err)]. *)
Inductive Result :=
| Respond (r : Response)
| Next (e : Err).

Definition allowed : list string := ["image/jpeg"; "image/png"].

(** [fileFilter]: [Some e] is [cb(e)], [None] is [cb(null, true)]. *)
Definition fileFilter (file_mimetype : string) : option Err :=
  if negb (bool_decide (file_mimetype ∈ allowed))
  then Some (PlainError "Only JPEG and PNG files are allowed")
  else None.

Inductive Multer :=
| Aborted (e : Err)
| Parsed (file : option File).

(** [upload.single('image')] with the storage, limit and filter of the
    configuration: the filter runs before the storage engine is asked to
    write.  The parser counts the bytes of the part against
    [limits.fileSize] and cuts the stream as soon as the count reaches
    the limit, so a stream of exactly [MAX_FILE_SIZE] bytes is already
    refused: what was written is removed again and the request is
    reported as [LIMIT_FILE_SIZE]. *)
Definition upload_single (cfg : Config) (env : Env) (req : option Part)
    (st : State) : State * Multer :=
  match req with
  | None => (st, Parsed None)
  | Some p =>
      if negb (bool_decide (fieldname p = "image"))
      then (st, Aborted (MulterError "LIMIT_UNEXPECTED_FILE" "Unexpected field"))
      else
        match fileFilter (mimetype p) with
        | Some e => (st, Aborted e)
        | None =>
            let name := Allocator.filename (now env) (rnd env) (originalname p) in
            if MAX_FILE_SIZE cfg <=? blob_size (content p)
            then (unlink name st,
                  Aborted (MulterError "LIMIT_FILE_SIZE" "File too large"))
            else (set_files st (<[name := content p]> (files st)),
                  Parsed (Some {| file_filename := name;
                                  file_originalname := originalname p;
                                  file_mimetype := mimetype p;
                                  file_size := blob_size (content p) |}))
        end
  end.

(** The storage name multer gives the file of a request. *)
Definition storage_name (env : Env) (p : Part) : string :=
  Allocator.filename (now env) (rnd env) (originalname p).

(** The request carries its file under the expected field, with an allowed
    mime type and below the size limit: multer hands it to the handler. *)
Definition admitted (cfg : Config) (p : Part) : Prop :=
  fieldname p = "image"
  /\ mimetype p ∈ allowed
  /\ blob_size (content p) < MAX_FILE_SIZE cfg.

(** [!x] for an optional number. *)
Definition falsy (x : option Z) : bool :=
  match x with
  | Some n => n =? 0
  | None => true
  end.

(** The test the handler applies to what [sizeOf] gives: it threw, or
    [!dimensions.width || !dimensions.height]. *)
Definition invalid_image (d : Probe) : bool :=
  match d with
  | Undecodable => true
  | Dimensions w h => falsy w || falsy h
  end.

Definition json_error (code : Z) (msg : string) : Result :=
  Respond {| status := code; body := ErrorBody msg |}.

Definition describe (cfg : Config) (storage_name : string) (image : Image)
    : Descriptor :=
  {| d_id := id image;
     d_filename := filename image;
     d_originalName := originalName image;
     d_mimeType := mimeType image;
     d_size := size image;
     d_width := width image;
     d_height := height image;
     d_url := publicBase cfg +:+ "/uploads/" +:+ storage_name;
     d_uploadedAt := uploadedAt image |}.

(** The handler of [POST /api/v1/uploads], after multer. *)
Definition upload_handler (cfg : Config) (env : Env) (file : option File)
    (st : State) : State * Result :=
  match file with
  | None => (st, json_error 400 "No file uploaded")
  | Some f =>
      let filePath := file_filename f in
      match sizeOf st filePath with
      | Undecodable =>
          (unlink filePath st, json_error 400 "Could not process image")
      | Dimensions w h =>
          if falsy w || falsy h
          then (unlink filePath st, json_error 400 "Invalid image file")
          else
            match upsert_user env with
            | None => (st, Next PrismaError)
            | Some user_id =>
                match create_image env with
                | None => (unlink filePath st, Next PrismaError)
                | Some (new_id, at_) =>
                    let image :=
                      {| id := new_id;
                         filename := file_filename f;
                         originalName := file_originalname f;
                         mimeType := file_mimetype f;
                         size := file_size f;
                         width := w;
                         height := h;
                         uploadedAt := at_;
                         userId := user_id |} in
                    ({| files := files st; images := images st ++ [image] |},
                     Respond {| status := 201;
                                body := ImageBody
                                          (describe cfg (file_filename f) image) |})
                end
            end
      end
  end.

(** The "Multer error handler" middleware. *)
Definition multer_error_handler (err : Err) : Result :=
  match err with
  | MulterError code message =>
      if bool_decide (code = "LIMIT_FILE_SIZE")
      then json_error 413 "File too large. Max 10MB."
      else json_error 400 message
  | _ => Next err
  end.

(** The final error-handling middleware. *)
Definition error_handler (err : Err) : Response :=
  {| status := 500; body := ErrorBody "Something went wrong!" |}.

(** Express runs the error middlewares in registration order. *)
Definition finish (r : Result) : Response :=
  match r with
  | Respond resp => resp
  | Next e =>
      match multer_error_handler e with
      | Respond resp => resp
      | Next e' => error_handler e'
      end
  end.

(** [POST /api/v1/uploads]: multer, the handler, the error middlewares. *)
Definition post_uploads (cfg : Config) (env : Env) (req : option Part)
    (st : State) : State * Response :=
  match upload_single cfg env req st with
  | (st1, Aborted e) => (st1, finish (Next e))
  | (st1, Parsed file) =>
      let '(st2, r) := upload_handler cfg env file st1 in
      (st2, finish r)
  end.

(** *** Listing *)

(** A query-string parameter: one string, or a list when it repeats. *)
Inductive QueryValue :=
| QStr (s : string)
| QArr (l : list string).

Fixpoint join_commas (l : list string) : string :=
  match l with
  | [] => ""
  | [s] => s
  | s :: l' => s +:+ "," +:+ join_commas l'
  end.

(** [String(v)]. *)
Definition to_String (v : QueryValue) : string :=
  match v with
  | QStr s => s
  | QArr l => join_commas l
  end.

Record Query := {
  q_limit : option QueryValue;
  q_offset : option QueryValue;
}.

(** [String(v ?? d)]. *)
Definition param (v : option QueryValue) (d : string) : string :=
  match v with
  | Some x => to_String x
  | None => d
  end.

Definition effective_limit (q : Query) : Z :=
  Z.min (Z.max (JS.number_or (JS.parseInt (param (q_limit q) "20")) 20) 1) 100.

Definition effective_offset (q : Query) : Z :=
  Z.max (JS.number_or (JS.parseInt (param (q_offset q) "0")) 0) 0.

(** [orderBy: { uploadedAt: 'desc' }]: [a] may come before [b]. *)
Definition newer_first (a b : Image) : Prop := uploadedAt b <= uploadedAt a.

Global Instance newer_first_dec : RelDecision newer_first.
Proof. intros a b. unfold newer_first. apply _. Defined.

(** [prisma.image.findMany({ orderBy, take, skip })].  The query orders
    by [uploadedAt] alone: rows with equal timestamps have no prescribed
    order, and the sort below returns them in one of the orders the
    database may choose.  [Listing.ordering] says which orders those are;
    when the timestamps are distinct there is only this one. *)
Definition findMany (rows : list Image) (take_ skip : Z) : list Image :=
  firstn (Z.to_nat take_) (skipn (Z.to_nat skip) (merge_sort newer_first rows)).

(** [prisma.image.count()]. *)
Definition count (rows : list Image) : Z := Z.of_nat (length rows).

(** [GET /api/v1/images]; [db_up] tells whether the two queries succeed. *)
Definition get_images (cfg : Config) (db_up : bool) (q : Query)
    (st : State) : State * Response :=
  let limit := effective_limit q in
  let offset := effective_offset q in
  if db_up then
    let items := findMany (images st) limit offset in
    let total := count (images st) in
    let mapped := map (fun image => describe cfg (filename image) image) items in
    (st, {| status := 200; body := PageBody total limit offset mapped |})
  else (st, finish (Next PrismaError)).

End Server.

(** ** The client: the fetch cycle of the [Gallery] component *)

Module Gallery.

(** A parsed JSON value ([await res.json()]).  An object is the list of
    its own properties, each key once. *)
#[warnings="-register-all"]
Inductive json :=
| JNull
| JBool (b : bool)
| JNum (n : Z)
| JStr (s : string)
| JArr (l : list json)
| JObj (fields : list (string * json)).

(** [String(v)]: an array joins its elements with commas, [null]
    elements printing as nothing. *)
Fixpoint to_String (j : json) : string :=
  match j with
  | JNull => "null"
  | JBool true => "true"
  | JBool false => "false"
  | JNum n => JS.number_to_string n
  | JStr s => s
  | JArr l =>
      (fix join (l : list json) : string :=
         match l with
         | [] => ""
         | x :: l' =>
             let sx := match x with JNull => "" | _ => to_String x end in
             match l' with
             | [] => sx
             | _ :: _ => sx +:+ "," +:+ join l'
             end
         end) l
  | JObj _ => "[object Object]"
  end.

Definition truthy (j : json) : bool :=
  match j with
  | JNull => false
  | JBool b => b
  | JNum n => negb (n =? 0)
  | JStr s => negb (bool_decide (s = ""))
  | JArr _ | JObj _ => true
  end.

Fixpoint assoc (k : string) (fields : list (string * json)) : option json :=
  match fields with
  | (k', v) :: rest => if bool_decide (k' = k) then Some v else assoc k rest
  | [] => None
  end.

(** [data.k] for a key that no prototype defines (["items"], ["error"]):
    the outer [None] is the [TypeError] of reading a property of [null],
    the inner [None] is [undefined]. *)
Definition member (data : json) (k : string) : option (option json) :=
  match data with
  | JNull => None
  | JObj fields => Some (assoc k fields)
  | _ => Some None
  end.

(** [data?.k]. *)
Definition opt_member (data : json) (k : string) : option json :=
  match member data k with
  | Some v => v
  | None => None
  end.

(** A caught value, seen through [e?.name] and [e?.message] (a missing
    property reads as the empty string: both are falsy and neither
    equals ['AbortError']). *)
Record Thrown := { name : string; message : string }.

Definition fallback : string := "Failed to load images".

(** [new Error(data?.error || 'Failed to load images')]. *)
Definition status_error (data : json) : Thrown :=
  let m := match opt_member data "error" with
           | Some v => if truthy v then to_String v else fallback
           | None => fallback
           end in
  {| name := "Error"; message := m |}.

(** The [TypeError] of [data.items] when [data] is [null] (V8 wording). *)
Definition null_items_error : Thrown :=
  {| name := "TypeError";
     message := "Cannot read properties of null (reading 'items')" |}.

(** [Array.isArray(data.items) ? data.items : []]. *)
Definition items_of (v : option json) : list json :=
  match v with
  | Some (JArr l) => l
  | _ => []
  end.

(** How the two awaits of one attempt settle: [fetch] or [res.json()]
    rejects with [e], or a response with [res.ok] and parsed body
    arrives. *)
Inductive Outcome :=
| Rejected (e : Thrown)
| Response (ok : bool) (data : json).

(** What the [try] block does once the awaits have settled. *)
Inductive TryResult :=
| Throws (e : Thrown)
| Returns
| SetItems (l : list json).

Definition try_block (cancelled : bool) (o : Outcome) : TryResult :=
  match o with
  | Rejected e => Throws e
  | Response ok data =>
      if negb ok then Throws (status_error data)
      else if cancelled then Returns
      else match member data "items" with
           | None => Throws null_items_error
           | Some v => SetItems (items_of v)
           end
  end.

(** The three [useState] cells. *)
Record View := {
  items : list json;
  error : option string;
  loading : bool;
}.

Definition initial_view : View :=
  {| items := []; error := None; loading := true |}.

Definition setItems (l : list json) (v : View) : View :=
  {| items := l; error := error v; loading := loading v |}.
Definition setError (e : option string) (v : View) : View :=
  {| items := items v; error := e; loading := loading v |}.
Definition setLoading (b : bool) (v : View) : View :=
  {| items := items v; error := error v; loading := b |}.

(** What a cycle is waiting for. *)
Inductive Pending :=
| Idle
| Fetching (attempt : nat)
| Sleeping (attempt : nat).

(** One run of the effect: its [cancelled] flag, its abort signal, the
    continuation it waits for, the delays passed to [setTimeout] and the
    number of [fetch] calls so far. *)
Record Cycle := {
  cancelled : bool;
  aborted : bool;
  pending : Pending;
  timers : list Z;
  requests : nat;
}.

Definition fresh : Cycle :=
  {| cancelled := false; aborted := false; pending := Idle;
     timers := []; requests := 0 |}.

Definition set_pending (p : Pending) (c : Cycle) : Cycle :=
  {| cancelled := cancelled c; aborted := aborted c; pending := p;
     timers := timers c; requests := requests c |}.

Definition delay (attempt : nat) : Z :=
  Z.min (1000 * 2 ^ Z.of_nat attempt) 8000.

(** [load(attempt)] up to the first [await]. *)
Definition load (attempt : nat) (c : Cycle) (v : View) : Cycle * View :=
  if cancelled c then (set_pending Idle c, v)
  else
    let v1 := if Nat.eqb attempt 0 then setLoading true v else v in
    let v2 := setError None v1 in
    ({| cancelled := cancelled c; aborted := aborted c;
        pending := Fetching attempt;
        timers := timers c; requests := S (requests c) |}, v2).

(** The [catch] block of [load(attempt)]. *)
Definition catch_block (attempt : nat) (e : Thrown) (c : Cycle) (v : View)
    : Cycle * View :=
  if cancelled c then (set_pending Idle c, v)
  else
    let isAbort := bool_decide (name e = "AbortError") in
    if negb isAbort && Nat.ltb attempt 5
    then ({| cancelled := cancelled c; aborted := aborted c;
             pending := Sleeping (attempt + 1);
             timers := timers c ++ [delay attempt];
             requests := requests c |}, v)
    else (set_pending Idle c,
          setLoading false (setError (Some (JS.string_or (message e) fallback)) v)).

(** [load(attempt)] from the point where its awaits have settled. *)
Definition resume (attempt : nat) (o : Outcome) (c : Cycle) (v : View)
    : Cycle * View :=
  match try_block (cancelled c) o with
  | Throws e => catch_block attempt e c v
  | Returns => (set_pending Idle c, v)
  | SetItems l => (set_pending Idle c, setLoading false (setItems l v))
  end.

(** What the event loop can deliver to a cycle. *)
Inductive Event :=
| Settled (o : Outcome)
| TimerFired.

Definition deliver (ev : Event) (c : Cycle) (v : View) : Cycle * View :=
  match ev, pending c with
  | Settled o, Fetching n => resume n o c v
  | TimerFired, Sleeping n => load n c v
  | _, _ => (c, v)
  end.

Fixpoint run (evs : list Event) (c : Cycle) (v : View) : Cycle * View :=
  match evs with
  | [] => (c, v)
  | ev :: evs' => let '(c', v') := deliver ev c v in run evs' c' v'
  end.

(** The effect's clean-up: [cancelled = true; controller.abort()]. *)
Definition cleanup (c : Cycle) : Cycle :=
  {| cancelled := true; aborted := true; pending := pending c;
     timers := timers c; requests := requests c |}.

(** The effect body: a new flag, a new controller, [load()]. *)
Definition effect (v : View) : Cycle * View := load 0 fresh v.

(** One cycle from its start: the effect runs on the rendered state [v],
    then the event loop delivers [evs] to it. *)
Definition run_effect (evs : list Event) (v : View) : Cycle * View :=
  let '(c, v') := effect v in run evs c v'.

(** The error the [catch] block of a running attempt receives, when its
    [try] block throws. *)
Definition caught (o : Outcome) : option Thrown :=
  match try_block false o with
  | Throws e => Some e
  | _ => None
  end.

(** A failed attempt that is not an abort. *)
Definition transient (o : Outcome) : Prop :=
  exists e, caught o = Some e /\ name e <> "AbortError".

(** Attempts that settle as [os], each followed by its retry timer. *)
Definition retrying (os : list Outcome) : list Event :=
  flat_map (fun o => [Settled o; TimerFired]) os.

(** The cycle while attempt [k] is in flight after [k] retries, and the
    rendered state during that time. *)
Definition attempting (k : nat) : Cycle :=
  {| cancelled := false; aborted := false; pending := Fetching k;
     timers := map delay (seq 0 k); requests := S k |}.

Definition waiting (v : View) : View :=
  {| items := items v; error := None; loading := true |}.

(** The mounted component: the rendered state and every cycle started
    so far, the current one first. *)
Record Component := {
  view : View;
  cycles : list Cycle;
}.

Definition mount : Component :=
  let '(c, v) := effect initial_view in {| view := v; cycles := [c] |}.

(** What can happen to the component: [refreshKey] changes (clean-up of
    the running effect, then the effect again), it is torn down, or the
    event loop delivers an event to the cycle at position [i]. *)
Inductive Action :=
| Refresh
| Unmount
| Deliver (i : nat) (ev : Event).

Definition cleanup_current (cs : list Cycle) : list Cycle :=
  match cs with
  | c :: rest => cleanup c :: rest
  | [] => []
  end.

Definition react (a : Action) (g : Component) : Component :=
  match a with
  | Refresh =>
      let '(c, v) := effect (view g) in
      {| view := v; cycles := c :: cleanup_current (cycles g) |}
  | Unmount => {| view := view g; cycles := cleanup_current (cycles g) |}
  | Deliver i ev =>
      match cycles g !! i with
      | Some c =>
          let '(c', v') := deliver ev c (view g) in
          {| view := v'; cycles := <[i := c']> (cycles g) |}
      | None => g
      end
  end.

Definition react_all (acts : list Action) (g : Component) : Component :=
  fold_left (fun g a => react a g) acts g.

(** Every cycle but the current one has been cleaned up. *)
Definition superseded_cancelled (g : Component) : Prop :=
  Forall (fun c => cancelled c = true) (tail (cycles g)).

End Gallery.

(** ** The specification's wording, for comparison with the code *)

Module Spec.

(** "clamped to the bounds [lo] to [hi]". *)
Definition clamp (lo hi x : Z) : Z := Z.min (Z.max x lo) hi.

(** The number a query parameter asks for, when it is present and numeric. *)
Definition requested (v : option Server.QueryValue) : option Z :=
  match v with
  | Some x => JS.parseInt (Server.to_String x)
  | None => None
  end.

(** "non-positive" for a decoded dimension. *)
Definition non_positive (x : option Z) : bool :=
  match x with
  | Some n => n <=? 0
  | None => false
  end.

End Spec.

(** ** Concrete requests used to exercise the model *)

Module Sample.

Definition cfg : Server.Config :=
  {| Server.PORT := "3001"; Server.PUBLIC_URL := None;
     Server.MAX_FILE_SIZE := 10 * 1024 * 1024 |}.

Definition empty : Server.State :=
  {| Server.files := ∅; Server.images := [] |}.

(** Both Prisma calls succeed. *)
Definition env_ok : Server.Env :=
  {| Server.now := 1700000000000; Server.rnd := 123456789;
     Server.upsert_user := Some "user-1";
     Server.create_image := Some ("img-1", 1700000000005) |}.

(** The user is found, [prisma.image.create] throws. *)
Definition env_create_fails : Server.Env :=
  {| Server.now := 1700000000000; Server.rnd := 123456789;
     Server.upsert_user := Some "user-1";
     Server.create_image := None |}.

Definition part (mime : string) (probe : Server.Probe) : Server.Part :=
  {| Server.fieldname := "image"; Server.originalname := "page01.JPG";
     Server.mimetype := mime;
     Server.content := {| Server.blob_size := 2097152;
                          Server.blob_probe := probe |} |}.

Definition jpeg : Server.Part :=
  part "image/jpeg" (Server.Dimensions (Some 800) (Some 1200)).

Definition gif : Server.Part :=
  part "image/gif" (Server.Dimensions (Some 800) (Some 1200)).

Definition negative_width : Server.Part :=
  part "image/png" (Server.Dimensions (Some (-1)) (Some 10)).

Definition zero_height : Server.Part :=
  part "image/png" (Server.Dimensions (Some 10) (Some 0)).

Definition stored_name : string := "1700000000000-123456789.jpg".

Definition row (name : string) (at_ : Z) : Server.Image :=
  {| Server.id := name; Server.filename := name +:+ ".png";
     Server.originalName := "x.png"; Server.mimeType := "image/png";
     Server.size := 10; Server.width := Some 1; Server.height := Some 1;
     Server.uploadedAt := at_; Server.userId := "user-1" |}.

Definition three_rows : Server.State :=
  {| Server.files := ∅;
     Server.images := [row "a" 10; row "b" 30; row "c" 20] |}.

Definition query (limit offset : option string) : Server.Query :=
  {| Server.q_limit := Server.QStr <$> limit;
     Server.q_offset := Server.QStr <$> offset |}.

(** [fetch] rejects: the network is down. *)
Definition network_failure : Gallery.Outcome :=
  Gallery.Rejected {| Gallery.name := "TypeError";
                      Gallery.message := "Failed to fetch" |}.

(** A non-success status with an error body. *)
Definition bad_gateway : Gallery.Outcome :=
  Gallery.Response false (Gallery.JObj [("error", Gallery.JStr "Bad gateway")]).

(** A listing page as the server sends it. *)
Definition page (l : list Gallery.json) : Gallery.Outcome :=
  Gallery.Response true
    (Gallery.JObj [("total", Gallery.JNum 1); ("limit", Gallery.JNum 50);
                   ("offset", Gallery.JNum 0); ("items", Gallery.JArr l)]).

End Sample.

(** ** Reading a decimal numeral *)

Module Numeral.

(** The digits of [d] read from left to right onto the accumulator. *)
Fixpoint digits_onto (d : Decimal.uint) (acc : Z) : Z :=
  match d with
  | Decimal.Nil => acc
  | Decimal.D0 d => digits_onto d (10 * acc + 0)
  | Decimal.D1 d => digits_onto d (10 * acc + 1)
  | Decimal.D2 d => digits_onto d (10 * acc + 2)
  | Decimal.D3 d => digits_onto d (10 * acc + 3)
  | Decimal.D4 d => digits_onto d (10 * acc + 4)
  | Decimal.D5 d => digits_onto d (10 * acc + 5)
  | Decimal.D6 d => digits_onto d (10 * acc + 6)
  | Decimal.D7 d => digits_onto d (10 * acc + 7)
  | Decimal.D8 d => digits_onto d (10 * acc + 8)
  | Decimal.D9 d => digits_onto d (10 * acc + 9)
  end.

(** A decimal digit. *)
Definition is_digit (c : ascii) : Prop := JS.digit_value c <> None.

End Numeral.

(** ** What the [Gallery] component renders *)

Module Render.

(** The four returns of the component function. *)
Inductive Rendered :=
| Loading
| Alert (message : string)
| Empty
| Grid (items : list Gallery.json).

(** [if (loading) ...; if (error) ...; if (!items.length) ...; grid]. *)
Definition render (v : Gallery.View) : Rendered :=
  let listing := match Gallery.items v with
                 | [] => Empty
                 | _ :: _ => Grid (Gallery.items v)
                 end in
  if Gallery.loading v then Loading
  else match Gallery.error v with
       | Some m => if bool_decide (m = "") then listing else Alert m
       | None => listing
       end.

(** A cycle that still has something to wait for and may act on it. *)
Definition live (c : Gallery.Cycle) : Prop :=
  Gallery.cancelled c = false /\ Gallery.pending c <> Gallery.Idle.

(** The delays of a whole cycle, in order. *)
Definition schedule : list Z := [1000; 2000; 4000; 8000; 8000].

(** The bookkeeping of a cycle after [k] retries have been scheduled. *)
Definition paced (c : Gallery.Cycle) : Prop :=
  exists k : nat,
    (k <= 5)%nat
    /\ Gallery.timers c = map Gallery.delay (seq 0 k)
    /\ match Gallery.pending c with
       | Gallery.Fetching n => n = k /\ Gallery.requests c = S k
       | Gallery.Sleeping n => n = k /\ (1 <= k)%nat /\ Gallery.requests c = k
       | Gallery.Idle => (k <= Gallery.requests c <= S k)%nat
       end.

(** What the rendered state has to be for the current cycle [h]. *)
Definition settled (h : Gallery.Cycle) (v : Gallery.View) : Prop :=
  Gallery.error v <> Some ""
  /\ (Gallery.cancelled h = false ->
      match Gallery.pending h with
      | Gallery.Idle => Gallery.loading v = false
      | _ => Gallery.loading v = true /\ Gallery.error v = None
      end).

End Render.

(** ** The client: [UploadArea] *)

Module UploadArea.

(** A [File] of the browser: its name, its type and its bytes. *)
Record ClientFile := {
  file_name : string;
  file_type : string;
  file_bytes : Server.Blob;
}.

Definition MAX_FILE_SIZE : Z := 10 * 1024 * 1024.
Definition ALLOWED_TYPES : list string := ["image/jpeg"; "image/png"].

(** [validateFile]: [None] is [null]. *)
Definition validateFile (file : ClientFile) : option string :=
  if negb (bool_decide (file_type file ∈ ALLOWED_TYPES))
  then Some "Only JPEG and PNG files are allowed"
  else if MAX_FILE_SIZE <? Server.blob_size (file_bytes file)
  then Some "File too large. Max 10MB."
  else None.

(** The [error], [loading] and [result] cells ([result] is [None] when
    it holds [null]). *)
Record State := {
  error : option string;
  loading : bool;
  result : option Gallery.json;
}.

Definition initial : State :=
  {| error := None; loading := false; result := None |}.

(** [form.append('image', file)]: the part the browser sends. *)
Definition form (file : ClientFile) : Server.Part :=
  {| Server.fieldname := "image";
     Server.originalname := file_name file;
     Server.mimetype := file_type file;
     Server.content := file_bytes file |}.

(** [handleFiles] up to its [await]: the new state and the request it
    sends, if any. *)
Definition handleFiles (files : list ClientFile) (u : State)
    : State * option Server.Part :=
  match files with
  | [] => (u, None)
  | file :: _ =>
      match validateFile file with
      | Some validationError =>
          ({| error := Some validationError; loading := loading u;
              result := result u |}, None)
      | None =>
          ({| error := None; loading := true; result := None |},
           Some (form file))
      end
  end.

Definition fallback : string := "Upload failed".

(** [new Error(data?.error || 'Upload failed').message]. *)
Definition status_message (data : Gallery.json) : string :=
  match Gallery.opt_member data "error" with
  | Some v => if Gallery.truthy v then Gallery.to_String v else fallback
  | None => fallback
  end.

(** [handleFiles] from the point where its awaits have settled; the
    boolean tells whether [onUploadSuccess] was called. *)
Definition settle (o : Gallery.Outcome) (u : State) : State * bool :=
  match o with
  | Gallery.Rejected e =>
      ({| error := Some (JS.string_or (Gallery.message e) fallback);
          loading := false; result := result u |}, false)
  | Gallery.Response ok data =>
      if negb ok
      then ({| error := Some (JS.string_or (status_message data) fallback);
               loading := false; result := result u |}, false)
      else ({| error := error u; loading := false;
               result := match data with
                         | Gallery.JNull => None
                         | _ => Some data
                         end |}, true)
  end.

End UploadArea.

(** ** What travels between server and client *)

Module Wire.

(** [res.ok]. *)
Definition ok (r : Server.Response) : bool :=
  (200 <=? Server.status r) && (Server.status r <=? 299).

Definition number (x : option Z) : Gallery.json :=
  match x with
  | Some n => Gallery.JNum n
  | None => Gallery.JNull
  end.

(** The JSON of one descriptor; [iso] prints a timestamp the way
    [JSON.stringify] prints a [Date]. *)
Definition descriptor (iso : Z -> string) (d : Server.Descriptor) : Gallery.json :=
  Gallery.JObj
    [("id", Gallery.JStr (Server.d_id d));
     ("filename", Gallery.JStr (Server.d_filename d));
     ("originalName", Gallery.JStr (Server.d_originalName d));
     ("mimeType", Gallery.JStr (Server.d_mimeType d));
     ("size", Gallery.JNum (Server.d_size d));
     ("width", number (Server.d_width d));
     ("height", number (Server.d_height d));
     ("url", Gallery.JStr (Server.d_url d));
     ("uploadedAt", Gallery.JStr (iso (Server.d_uploadedAt d)))].

(** [res.json(body)] on the server, [await res.json()] on the client. *)
Definition json_of (iso : Z -> string) (b : Server.Body) : Gallery.json :=
  match b with
  | Server.ErrorBody e => Gallery.JObj [("error", Gallery.JStr e)]
  | Server.ImageBody d => descriptor iso d
  | Server.PageBody total limit offset items =>
      Gallery.JObj
        [("total", Gallery.JNum total);
         ("limit", Gallery.JNum limit);
         ("offset", Gallery.JNum offset);
         ("items", Gallery.JArr (map (descriptor iso) items))]
  end.

(** How a [fetch] of the client settles on an answer of the server. *)
Definition receive (iso : Z -> string) (r : Server.Response) : Gallery.Outcome :=
  Gallery.Response (ok r) (json_of iso (Server.body r)).

(** The query of [fetch('/api/v1/images?limit=50')]. *)
Definition gallery_query : Server.Query :=
  {| Server.q_limit := Some (Server.QStr "50"); Server.q_offset := None |}.

End Wire.

(** ** More concrete requests *)

Module Cases.

(** The user upsert throws. *)
Definition env_no_user : Server.Env :=
  {| Server.now := 1700000000000; Server.rnd := 123456789;
     Server.upsert_user := None;
     Server.create_image := Some ("img-1", 1700000000005) |}.

(** A JPEG of twenty megabytes. *)
Definition oversized : Server.Part :=
  {| Server.fieldname := "image"; Server.originalname := "big.jpg";
     Server.mimetype := "image/jpeg";
     Server.content :=
       {| Server.blob_size := 20 * 1024 * 1024;
          Server.blob_probe := Server.Dimensions (Some 4000) (Some 6000) |} |}.

(** A JPEG sent under another field name. *)
Definition misnamed : Server.Part :=
  {| Server.fieldname := "file"; Server.originalname := "page01.jpg";
     Server.mimetype := "image/jpeg";
     Server.content := Server.content Sample.jpeg |}.

(** One row with its stream. *)
Definition one_row : Server.State :=
  {| Server.files := {[ "a.png" := {| Server.blob_size := 10;
                                      Server.blob_probe :=
                                        Server.Dimensions (Some 1) (Some 1) |} ]};
     Server.images := [Sample.row "a" 10] |}.

(** The file picked in the browser. *)
Definition photo : UploadArea.ClientFile :=
  {| UploadArea.file_name := "page01.JPG";
     UploadArea.file_type := "image/jpeg";
     UploadArea.file_bytes := Server.content Sample.jpeg |}.

Definition drawing : UploadArea.ClientFile :=
  {| UploadArea.file_name := "sketch.gif";
     UploadArea.file_type := "image/gif";
     UploadArea.file_bytes := Server.content Sample.jpeg |}.

(** Two rows created in the same millisecond. *)
Definition tied_rows : Server.State :=
  {| Server.files := ∅;
     Server.images := [Sample.row "a" 10; Sample.row "b" 10] |}.

(** A PNG of exactly ten megabytes (10485760 bytes). *)
Definition ten_megabytes : UploadArea.ClientFile :=
  {| UploadArea.file_name := "spread.png";
     UploadArea.file_type := "image/png";
     UploadArea.file_bytes :=
       {| Server.blob_size := 10485760;
          Server.blob_probe := Server.Dimensions (Some 4000) (Some 6000) |} |}.

(** The same with one byte less. *)
Definition one_byte_less : UploadArea.ClientFile :=
  {| UploadArea.file_name := "spread.png";
     UploadArea.file_type := "image/png";
     UploadArea.file_bytes :=
       {| Server.blob_size := 10485759;
          Server.blob_probe := Server.Dimensions (Some 4000) (Some 6000) |} |}.

(** A stand-in for the date printer: the milliseconds in decimal. *)
Definition stamp (z : Z) : string := JS.number_to_string z.

End Cases.

(** ** CORS: the origin allow-list of [app.ts] *)

Module Cors.

Definition is_comma (c : ascii) : bool := Ascii.eqb c ",".

(** [s.split(',')], on characters: the empty string gives one empty
    piece. *)
Fixpoint split_commas (l : list ascii) : list (list ascii) :=
  match l with
  | [] => [[]]
  | c :: l' =>
      if is_comma c then [] :: split_commas l'
      else match split_commas l' with
           | piece :: rest => (c :: piece) :: rest
           | [] => [[c]]
           end
  end.

(** [s.trim()], on characters (ASCII white space). *)
Definition trim (l : list ascii) : list ascii :=
  rev (JS.skip_spaces (rev (JS.skip_spaces l))).

Definition default_origin : string := "http://localhost:5173".

(** [(process.env.FRONTEND_ORIGIN || 'http://localhost:5173')
      .split(',').map((s) => s.trim()).filter(Boolean)]. *)
Definition allowedOrigins (FRONTEND_ORIGIN : option string) : list string :=
  let source := match FRONTEND_ORIGIN with
                | Some s => JS.string_or s default_origin
                | None => default_origin
                end in
  filter (fun s => s <> "")
    (map (fun piece => string_of_list_ascii (trim piece))
       (split_commas (list_ascii_of_string source))).

(** The [origin] callback given to [cors]: [None] is [callback(null, true)],
    [Some e] is [callback(e)]. *)
Definition origin_check (allowed : list string) (origin : option string)
    : option Server.Err :=
  match origin with
  | None => None
  | Some o =>
      if bool_decide (o = "") then None
      else if bool_decide (o ∈ allowed) then None
      else Some (Server.PlainError "Not allowed by CORS")
  end.

(** A string as an entry of the allow-list can be: not empty, without a
    comma, without white space at either end. *)
Definition clean (s : string) : Prop :=
  s <> ""
  /\ Forall (fun c => is_comma c = false) (list_ascii_of_string s)
  /\ trim (list_ascii_of_string s) = list_ascii_of_string s.

End Cors.

(** ** Reading a listing answer, and queries written in decimal *)

Module Listing.

(** The [items] of a page; an answer that is not a page has none. *)
Definition items_of (r : Server.Response) : list Server.Descriptor :=
  match Server.body r with
  | Server.PageBody _ _ _ items => items
  | _ => []
  end.

(** The [total] of a page. *)
Definition total_of (r : Server.Response) : Z :=
  match Server.body r with
  | Server.PageBody total _ _ _ => total
  | _ => 0
  end.


(** The page the listing gives on [st] for [q] when the store is readable. *)
Definition page (cfg : Server.Config) (q : Server.Query) (st : Server.State)
    : list Server.Descriptor :=
  items_of (Server.get_images cfg true q st).2.

(** An order in which the database may return the rows for
    [orderBy: { uploadedAt: 'desc' }]: a rearrangement of the table with
    the timestamps descending.  Rows with equal timestamps may come in
    any order, and two queries need not choose the same one. *)
Definition ordering (rows sorted : list Server.Image) : Prop :=
  sorted ≡ₚ rows /\ StronglySorted Server.newer_first sorted.

(** The items of the page for [q] cut from the order [sorted]. *)
Definition page_of (cfg : Server.Config) (q : Server.Query)
    (sorted : list Server.Image) : list Server.Descriptor :=
  map (fun image => Server.describe cfg (Server.filename image) image)
    (take (Z.to_nat (Server.effective_limit q))
       (drop (Z.to_nat (Server.effective_offset q)) sorted)).

(** The item lists one request for [q] may be answered with on [st]. *)
Definition may_serve (cfg : Server.Config) (q : Server.Query)
    (st : Server.State) (items : list Server.Descriptor) : Prop :=
  exists sorted, ordering (Server.images st) sorted /\ items = page_of cfg q sorted.

End Listing.

(** ** Properties of the store as a whole *)

Module Store.

(** Every row of the table has its byte stream in the upload directory. *)
Definition backed (st : Server.State) : Prop :=
  Forall (fun i => Server.files st !! Server.filename i <> None)
    (Server.images st).

(** No row of the table uses the storage name [name]. *)
Definition unused (name : string) (st : Server.State) : Prop :=
  Forall (fun i => Server.filename i <> name) (Server.images st).

End Store.

Example extname_html : Path.extname "index.html" = ".html". Proof. reflexivity. Qed.
Example extname_two : Path.extname "index.coffee.md" = ".md". Proof. reflexivity. Qed.
Example extname_dot_end : Path.extname "index." = ".". Proof. reflexivity. Qed.
Example extname_none : Path.extname "index" = "". Proof. reflexivity. Qed.
Example extname_hidden : Path.extname ".index" = "". Proof. reflexivity. Qed.
Example extname_hidden_md : Path.extname ".index.md" = ".md". Proof. reflexivity. Qed.
Example extname_dotdot : Path.extname "a/.." = "". Proof. reflexivity. Qed.
Example extname_dir : Path.extname "a.b/c" = "". Proof. reflexivity. Qed.
Example extname_trailing : Path.extname "dir/file.txt//" = ".txt". Proof. reflexivity. Qed.
Example extname_three_dots : Path.extname "..." = ".". Proof. reflexivity. Qed.
Example parseInt_ex1 : JS.parseInt "  12abc" = Some 12. Proof. reflexivity. Qed.
Example parseInt_ex2 : JS.parseInt "-7" = Some (-7). Proof. reflexivity. Qed.
Example parseInt_ex3 : JS.parseInt "abc" = None. Proof. reflexivity. Qed.
Example parseInt_ex4 : JS.parseInt "+" = None. Proof. reflexivity. Qed.
Example parseInt_ex5 :
JS.parseInt "9007199254740993" = Some 9007199254740992.
Proof. reflexivity. Qed.
Example parseInt_ex6 :
JS.parseInt "9007199254740995" = Some 9007199254740996.
Proof. reflexivity. Qed.
Example parseInt_ex7 :
JS.parseInt "-18014398509481987" = Some (-18014398509481988).
Proof. reflexivity. Qed.
Example parseInt_ex8 :
JS.parseInt "9007199254740992" = Some 9007199254740992.
Proof. reflexivity. Qed.
Example filename_ex :
Allocator.filename 1700000000000 123456789 "Page01.JPG"
= "1700000000000-123456789.jpg".
Proof. reflexivity. Qed.
Example number_to_string_neg : JS.number_to_string (-5) = "-5". Proof. reflexivity. Qed.

(** * Properties *)

(** ** Strings, digits and extensions *)

Section Characters.

Import Path.

Implicit Types (c : ascii) (l r e b : list ascii) (s : string).

Lemma chars_append s1 s2 :
  list_ascii_of_string (s1 +:+ s2)
  = list_ascii_of_string s1 ++ list_ascii_of_string s2.
Proof. induction s1 as [|c s1 IH]; simpl; [reflexivity | now rewrite IH]. Qed.

Lemma uint_chars_plain (d : Decimal.uint) :
  Forall plain (list_ascii_of_string (NilEmpty.string_of_uint d)).
Proof.
  induction d; simpl; constructor; try assumption; split; reflexivity.
Qed.

Lemma number_chars_plain (z : Z) :
  Forall plain (list_ascii_of_string (JS.number_to_string z)).
Proof.
  unfold JS.number_to_string, NilZero.string_of_int, NilZero.string_of_uint.
  destruct (Z.to_int z) as [d|d]; destruct d; simpl;
    repeat (constructor; [split; reflexivity|]);
    try apply uint_chars_plain; constructor.
Qed.

Lemma number_chars_nonempty (z : Z) :
  list_ascii_of_string (JS.number_to_string z) <> [].
Proof.
  unfold JS.number_to_string, NilZero.string_of_int, NilZero.string_of_uint.
  destruct (Z.to_int z) as [d|d]; destruct d; simpl; discriminate.
Qed.

Lemma lower_ascii_plain c : plain c -> plain (JS.lower_ascii c).
Proof.
  destruct c as [[] [] [] [] [] [] [] []]; vm_compute; intros [? ?]; split;
    congruence.
Qed.

Lemma lower_ascii_idem c : JS.lower_ascii (JS.lower_ascii c) = JS.lower_ascii c.
Proof. destruct c as [[] [] [] [] [] [] [] []]; reflexivity. Qed.

Lemma toLowerCase_idem s : JS.toLowerCase (JS.toLowerCase s) = JS.toLowerCase s.
Proof.
  unfold JS.toLowerCase. rewrite list_ascii_of_string_of_list_ascii.
  rewrite map_map. f_equal. apply map_ext. intros c. apply lower_ascii_idem.
Qed.

Lemma component_no_slash r :
  Forall (fun c => Path.is_slash c = false) (Path.component r).
Proof.
  induction r as [|c r IH]; simpl; [constructor|].
  destruct (Path.is_slash c) eqn:E; constructor; assumption.
Qed.

Lemma split_dot_spec r e b :
  Path.split_dot r = Some (e, b) ->
  r = e ++ "."%char :: b /\ Forall (fun c => Path.is_dot c = false) e.
Proof.
  revert e b. induction r as [|c r IH]; simpl; intros e b H; [discriminate|].
  destruct (Path.is_dot c) eqn:E.
  - injection H as <- <-. apply Ascii.eqb_eq in E. subst c.
    split; [reflexivity | constructor].
  - destruct (Path.split_dot r) as [[e' b']|]; [|discriminate].
    injection H as <- <-. destruct (IH e' b' eq_refl) as [-> He].
    split; [reflexivity | constructor; assumption].
Qed.

(** The extension is empty, or a dot followed by plain characters. *)
Lemma extname_chars_shape l :
  Path.extname_chars l = []
  \/ exists e, Path.extname_chars l = "."%char :: e /\ Forall plain e.
Proof.
  unfold Path.extname_chars.
  destruct (Path.split_dot _) as [[e b]|] eqn:E; [|now left].
  assert (exists e', "."%char :: rev e = "."%char :: e' /\ Forall plain e')
    as Hshape.
  { exists (rev e). split; [reflexivity|].
    destruct (split_dot_spec _ _ _ E) as [Hr He].
    pose proof (component_no_slash (Path.drop_slashes (rev l))) as Hs.
    rewrite Hr in Hs. apply Forall_app in Hs as [Hs _].
    apply Forall_rev. rewrite Forall_forall in *.
    intros c Hc. split; auto. }
  destruct e as [|c1 e], b as [|c0 [|c2 b]];
    try (now left); try (right; exact Hshape).
  all: destruct c0 as [[] [] [] [] [] [] [] []];
    first [now left | right; exact Hshape].
Qed.

Lemma drop_slashes_id r :
  Forall (fun c => Path.is_slash c = false) r -> Path.drop_slashes r = r.
Proof. destruct 1 as [|c r Hc _]; simpl; [reflexivity | now rewrite Hc]. Qed.

Lemma component_id r :
  Forall (fun c => Path.is_slash c = false) r -> Path.component r = r.
Proof. induction 1 as [|c r Hc _ IH]; simpl; [reflexivity|]. now rewrite Hc, IH. Qed.

Lemma split_dot_none r :
  Forall (fun c => Path.is_dot c = false) r -> Path.split_dot r = None.
Proof. induction 1 as [|c r Hc _ IH]; simpl; [reflexivity|]. now rewrite Hc, IH. Qed.

Lemma split_dot_app e b :
  Forall (fun c => Path.is_dot c = false) e ->
  Path.split_dot (e ++ "."%char :: b) = Some (e, b).
Proof. induction 1 as [|c r Hc _ IH]; simpl; [reflexivity|]. now rewrite Hc, IH. Qed.

Lemma plain_no_slash l :
  Forall plain l -> Forall (fun c => Path.is_slash c = false) l.
Proof. induction 1 as [|c l [_ Hc] _ IH]; constructor; assumption. Qed.

Lemma plain_no_dot l :
  Forall plain l -> Forall (fun c => Path.is_dot c = false) l.
Proof. induction 1 as [|c l [Hc _] _ IH]; constructor; assumption. Qed.

(** The extension of a plain, non-empty stem followed by an extension. *)
Lemma extname_chars_stem stem ext :
  stem <> [] -> Forall plain stem ->
  (ext = [] \/ exists e, ext = "."%char :: e /\ Forall plain e) ->
  Path.extname_chars (stem ++ ext) = ext.
Proof.
  intros Hne Hstem Hext. unfold Path.extname_chars.
  assert (Forall (fun c => Path.is_slash c = false) (rev (stem ++ ext))) as Hs.
  { apply Forall_rev, Forall_app. split.
    - now apply plain_no_slash.
    - destruct Hext as [->|(e & -> & He)]; [constructor|].
      constructor; [reflexivity|]. now apply plain_no_slash. }
  rewrite (drop_slashes_id _ Hs), (component_id _ Hs).
  destruct Hext as [->|(e & -> & He)].
  - rewrite app_nil_r, split_dot_none; [reflexivity|].
    now apply Forall_rev, plain_no_dot.
  - rewrite rev_app_distr. simpl. rewrite <- app_assoc. simpl.
    rewrite split_dot_app.
    2:{ now apply Forall_rev, plain_no_dot. }
    rewrite rev_involutive.
    destruct (rev stem) as [|c0 b] eqn:Er.
    { apply (f_equal (@rev ascii)) in Er. rewrite rev_involutive in Er.
      simpl in Er. contradiction. }
    assert (plain c0) as [Hc0 _].
    { assert (Forall plain (rev stem)) as Hr by now apply Forall_rev.
      rewrite Er in Hr. now inversion Hr. }
    destruct (rev e), b; try reflexivity;
      destruct c0 as [[] [] [] [] [] [] [] []];
      first [reflexivity | discriminate Hc0].
Qed.

Lemma free_of_traversal_plain l :
  Forall plain l -> Path.free_of_traversal l = true.
Proof.
  induction 1 as [|c l [Hd Hs] _ IH]; simpl; [reflexivity|].
  now rewrite Hs, Hd, IH.
Qed.

Lemma free_of_traversal_stem stem ext :
  Forall plain stem ->
  (ext = [] \/ exists e, ext = "."%char :: e /\ Forall plain e) ->
  Path.free_of_traversal (stem ++ ext) = true.
Proof.
  intros Hstem Hext. induction Hstem as [|c l [Hd Hs] _ IH]; simpl.
  - destruct Hext as [->|(e & -> & He)]; [reflexivity|]. simpl.
    rewrite (free_of_traversal_plain _ He).
    destruct He as [|c e [Hc _] _]; [reflexivity|]. now rewrite Hc.
  - now rewrite Hs, Hd, IH.
Qed.

End Characters.

(** ** [path.extname]: the component-wise definition is Node's loop *)

Section ExtnameScan.

Import Path.

Implicit Types (c : ascii) (l r e b : list ascii) (s : Scan).

Lemma scan_loop_rev pre suf s :
  scan_loop (length pre) (pre ++ suf) s = scan_rev (rev pre) s.
Proof.
  revert suf s. induction pre as [|c pre IH] using rev_ind; intros suf s;
    [reflexivity|].
  rewrite length_app, Nat.add_1_r, rev_app_distr. simpl.
  rewrite length_rev, <- app_assoc. simpl.
  assert (nth (length pre) (pre ++ c :: suf) "000"%char = c) as ->.
  { rewrite app_nth2, Nat.sub_diag; [reflexivity | lia]. }
  destruct (scan_body _ c s) as [s'|s']; [reflexivity|].
  apply (IH (c :: suf)).
Qed.

Lemma scan_rev_slashes r :
  scan_rev r scan_start = scan_rev (drop_slashes r) scan_start.
Proof.
  induction r as [|c r IH]; simpl; [reflexivity|].
  unfold scan_body. destruct (is_slash c) eqn:E; simpl; [exact IH|].
  unfold scan_body. rewrite ?E. reflexivity.
Qed.

Lemma scan_body_slash (i : Z) c (e sd sp pd : Z) :
  is_slash c = true ->
  scan_body i c (inside e sd sp pd) = inl (inside e sd (i + 1) pd).
Proof. intros E. unfold scan_body. rewrite E. reflexivity. Qed.

Lemma scan_body_inside (i : Z) c (e sd sp pd : Z) :
  0 <= e ->
  is_slash c = false ->
  scan_body i c (inside e sd sp pd)
  = inr (if is_dot c
         then if sd =? -1 then inside e i sp pd else inside e sd sp 1
         else if sd =? -1 then inside e sd sp pd else inside e sd sp (-1)).
Proof.
  intros He E. unfold scan_body, inside. rewrite E. simpl.
  destruct (Z.eqb_spec e (-1)) as [|_]; [lia|]. simpl.
  destruct (is_dot c), (sd =? -1); simpl; try reflexivity.
  destruct (Z.eqb_spec pd 1) as [->|_]; reflexivity.
Qed.

(** Once the dot has been seen (at index [sd >= 0]). *)
Lemma scan_rev_after_dot r (e sd pd : Z) :
  0 <= e -> 0 <= sd ->
  scan_rev r (inside e sd 0 pd)
  = inside e sd (Z.of_nat (length r) - Z.of_nat (length (component r)))
      (pre_dot pd (component r)).
Proof.
  intros He Hsd. revert pd. induction r as [|c r IH]; intros pd.
  - reflexivity.
  - cbn [scan_rev component]. destruct (is_slash c) eqn:Es.
    + rewrite scan_body_slash by exact Es. simpl. f_equal. lia.
    + rewrite scan_body_inside by assumption.
      destruct (Z.eqb_spec sd (-1)) as [|_]; [lia|].
      cbn [pre_dot length].
      replace (Z.of_nat (S (length r)) - Z.of_nat (S (length (component r))))
        with (Z.of_nat (length r) - Z.of_nat (length (component r))) by lia.
      destruct (is_dot c); apply IH.
Qed.

(** Before any dot has been seen. *)
Lemma scan_rev_before_dot r (e : Z) :
  0 <= e ->
  match split_dot (component r) with
  | None => startDot (scan_rev r (inside e (-1) 0 0)) = -1
  | Some (x, b) =>
      scan_rev r (inside e (-1) 0 0)
      = inside e (Z.of_nat (length r) - 1 - Z.of_nat (length x))
          (Z.of_nat (length r) - Z.of_nat (length (component r)))
          (pre_dot 0 b)
  end.
Proof.
  intros He. induction r as [|c r IH]; [reflexivity|].
  cbn [scan_rev component]. destruct (is_slash c) eqn:Es.
  - rewrite scan_body_slash by exact Es. reflexivity.
  - rewrite scan_body_inside by assumption. rewrite Z.eqb_refl.
    cbn [split_dot]. destruct (is_dot c) eqn:Ed.
    + rewrite scan_rev_after_dot by lia. cbn [length]. f_equal; lia.
    + destruct (split_dot (component r)) as [[x b]|]; [|exact IH].
      rewrite IH. cbn [length]. f_equal; lia.
Qed.

Lemma scan_body_first (i : Z) c :
  is_slash c = false ->
  scan_body i c scan_start = scan_body i c (inside (i + 1) (-1) 0 0).
Proof.
  intros E. unfold scan_body, inside, scan_start. rewrite E. simpl.
  destruct (Z.eqb_spec (i + 1) (-1)) as [->|_]; reflexivity.
Qed.

Lemma drop_slashes_split r :
  exists sl, r = sl ++ drop_slashes r
    /\ match drop_slashes r with
       | c :: _ => is_slash c = false
       | [] => True
       end.
Proof.
  induction r as [|c r (sl & IH & Hh)]; [now exists []|]. simpl.
  destruct (is_slash c) eqn:E.
  - exists (c :: sl). split; [simpl; congruence | exact Hh].
  - exists []. split; [reflexivity | exact E].
Qed.

Lemma component_split r : exists rest, r = component r ++ rest.
Proof.
  induction r as [|c r [rest IH]]; [now exists []|]. simpl.
  destruct (is_slash c).
  - now exists (c :: r).
  - exists rest. simpl. congruence.
Qed.

Lemma pre_dot_cons (pd : Z) c b :
  pre_dot pd (c :: b) = 1 \/ pre_dot pd (c :: b) = -1.
Proof.
  revert pd c. induction b as [|c' b IH]; intros pd c; simpl.
  - destruct (is_dot c); auto.
  - apply (IH 0 c').
Qed.

(** The case analysis of [extname_chars], as one test. *)
Lemma extname_cases (x b : list ascii) :
  match x, b with
  | _, [] => []
  | [], ["."%char] => []
  | _, _ => "."%char :: rev x
  end
  = if match b with
       | [] => true
       | [c] => is_dot c && bool_decide (x = [])
       | _ => false
       end
    then [] else "."%char :: rev x.
Proof.
  destruct x as [|c1 x], b as [|c0 [|c2 b]]; try reflexivity;
    destruct c0 as [[] [] [] [] [] [] [] []]; reflexivity.
Qed.

(** The component-wise definition computes what Node's loop computes. *)
Lemma extname_chars_scan (path : list ascii) :
  extname_chars path = extname_scan path.
Proof.
  unfold extname_scan, extname_chars.
  pose proof (scan_loop_rev path [] scan_start) as Hloop.
  rewrite app_nil_r in Hloop. rewrite Hloop, scan_rev_slashes. clear Hloop.
  destruct (drop_slashes_split (rev path)) as (sl & Hsl & Hhead).
  destruct (component_split (drop_slashes (rev path))) as (rest & Hrest).
  destruct (drop_slashes (rev path)) as [|c r'] eqn:Er1; [reflexivity|].
  set (r1 := c :: r') in *.
  assert (scan_rev r1 scan_start
          = scan_rev r1 (inside (Z.of_nat (length r1)) (-1) 0 0)) as ->.
  { subst r1. cbn [scan_rev]. rewrite (scan_body_first _ c Hhead).
    cbn [length]. replace (Z.of_nat (length r') + 1) with (Z.of_nat (S (length r')))
      by lia. reflexivity. }
  clearbody r1.
  pose proof (scan_rev_before_dot r1 (Z.of_nat (length r1)) ltac:(lia)) as Hscan.
  destruct (split_dot (component r1)) as [[x b]|] eqn:Esplit.
  2:{ rewrite Hscan. reflexivity. }
  rewrite Hscan, extname_cases. clear Hscan.
  destruct (split_dot_spec _ _ _ Esplit) as [Hcomp _].
  assert (length r1 = (length x + 1 + length b + length rest)%nat) as Hlen.
  { rewrite Hrest at 1. rewrite Hcomp, !length_app. simpl. lia. }
  unfold inside. cbn [startDot end_ preDotState startPart].
  rewrite Hcomp, length_app. cbn [length].
  destruct (Z.eqb_spec (Z.of_nat (length r1) - 1 - Z.of_nat (length x)) (-1)); [lia|].
  destruct (Z.eqb_spec (Z.of_nat (length r1)) (-1)); [lia|].
  cbn [orb].
  assert (path = rev rest ++ rev b ++ ("."%char :: rev x) ++ rev sl) as Hpath.
  { apply (f_equal (@rev ascii)) in Hsl. rewrite rev_involutive in Hsl.
    rewrite Hsl, rev_app_distr. rewrite Hrest, Hcomp.
    rewrite !rev_app_distr. simpl. rewrite <- !app_assoc. reflexivity. }
  assert (take (Z.to_nat (Z.of_nat (length r1)
                          - (Z.of_nat (length r1) - 1 - Z.of_nat (length x))))
            (drop (Z.to_nat (Z.of_nat (length r1) - 1 - Z.of_nat (length x))) path)
          = "."%char :: rev x) as Hslice.
  { replace (Z.to_nat (Z.of_nat (length r1) - 1 - Z.of_nat (length x)))
      with (length (rev rest ++ rev b))
      by (rewrite length_app, !length_rev; lia).
    replace (Z.to_nat _) with (length ("."%char :: rev x))
      by (simpl; rewrite length_rev; lia).
    rewrite Hpath, app_assoc, drop_app_length, take_app_length. reflexivity. }
  rewrite Hslice. clear Hslice Hpath.
  destruct b as [|c0 [|c2 b]].
  - reflexivity.
  - cbn [pre_dot length] in *. destruct (is_dot c0), x as [|c1 x];
      cbn [andb orb bool_decide decide_rel length] in *;
      rewrite ?bool_decide_eq_false_2 by discriminate;
      rewrite ?bool_decide_eq_true_2 by reflexivity;
      repeat match goal with
             | |- context [Z.eqb ?u ?v] => destruct (Z.eqb_spec u v)
             end;
      first [reflexivity | exfalso; lia].
  - destruct (pre_dot_cons 0 c0 (c2 :: b)) as [Hp|Hp]; rewrite Hp;
      cbn [length] in *;
      repeat match goal with
             | |- context [Z.eqb ?u ?v] => destruct (Z.eqb_spec u v)
             end;
      first [reflexivity | exfalso; lia].
Qed.

Corollary extname_is_scan (p : string) :
  extname p = string_of_list_ascii (extname_scan (list_ascii_of_string p)).
Proof. unfold extname. now rewrite extname_chars_scan. Qed.

End ExtnameScan.

(** ** Filename Allocator *)

Section AllocatorFacts.

Import Path.

Variables (now rnd : Z) (original : string).

Local Abbreviation stem := (Allocator.stem now rnd).
Local Abbreviation ext := (Allocator.ext original).

Lemma filename_chars :
  list_ascii_of_string (Allocator.filename now rnd original) = stem ++ ext.
Proof.
  unfold Allocator.filename, Allocator.stem, Allocator.ext, JS.toLowerCase, Path.extname.
  rewrite !chars_append, !list_ascii_of_string_of_list_ascii.
  simpl. now rewrite <- app_assoc.
Qed.

Lemma stem_plain : Forall plain stem.
Proof.
  unfold Allocator.stem. apply Forall_app. split; [apply number_chars_plain|].
  constructor; [split; reflexivity | apply number_chars_plain].
Qed.

Lemma stem_nonempty : stem <> [].
Proof.
  unfold Allocator.stem. pose proof (number_chars_nonempty now) as H.
  destruct (list_ascii_of_string (JS.number_to_string now)); [contradiction|].
  discriminate.
Qed.

Lemma ext_shape :
  ext = [] \/ exists e, ext = "."%char :: e /\ Forall plain e.
Proof.
  unfold Allocator.ext.
  destruct (extname_chars_shape (list_ascii_of_string original))
    as [->|(e & -> & He)]; [now left|].
  right. exists (map JS.lower_ascii e). split; [reflexivity|].
  induction He as [|c e Hc _ IH]; constructor; [now apply lower_ascii_plain | exact IH].
Qed.

Lemma filename_extname :
  Path.extname (Allocator.filename now rnd original)
  = JS.toLowerCase (Path.extname original).
Proof.
  unfold Path.extname at 1. rewrite filename_chars.
  rewrite (extname_chars_stem _ _ stem_nonempty stem_plain ext_shape).
  unfold Allocator.ext, JS.toLowerCase, Path.extname.
  now rewrite list_ascii_of_string_of_list_ascii.
Qed.

Lemma filename_safe :
  Path.safe_segment (Allocator.filename now rnd original) = true.
Proof.
  unfold Path.safe_segment. rewrite filename_chars.
  pose proof (free_of_traversal_stem _ _ stem_plain ext_shape) as H.
  pose proof stem_nonempty as Hne.
  destruct (Allocator.stem now rnd) as [|c s]; [contradiction|]. exact H.
Qed.

End AllocatorFacts.

(** C8.  The storage name is [{timestamp}-{random integer}{ext}] where
    [ext] is the lower-cased extension of the original name; the name's
    own extension is that [ext], which lower-casing leaves unchanged; the
    name is not empty and has no slash and no two dots in a row; and two
    original names with the same extension get the same storage name from
    the same clock and random draw. *)
Theorem filename_allocator_spec (t r : Z) (original other : string) :
  Allocator.filename t r original
  = JS.number_to_string t +:+ "-" +:+ JS.number_to_string r
    +:+ JS.toLowerCase (Path.extname original)
  /\ Path.extname (Allocator.filename t r original)
     = JS.toLowerCase (Path.extname original)
  /\ JS.toLowerCase (Path.extname (Allocator.filename t r original))
     = Path.extname (Allocator.filename t r original)
  /\ Path.safe_segment (Allocator.filename t r original) = true
  /\ (Path.extname other = Path.extname original ->
      Allocator.filename t r other = Allocator.filename t r original).
Proof.
  repeat split.
  - apply filename_extname.
  - rewrite filename_extname. apply toLowerCase_idem.
  - apply filename_safe.
  - intros H. unfold Allocator.filename. now rewrite H.
Qed.

Lemma filename_allocator_spec_witness :
  Allocator.filename 1700000000000 123456789 "Scan.Page01.JPG"
  = "1700000000000-123456789.jpg"
  /\ Allocator.filename 1700000000000 123456789 "../../etc/x.jpg"
     = Allocator.filename 1700000000000 123456789 "Scan.Page01.jpg".
Proof.
  split; [reflexivity|].
  apply (filename_allocator_spec 1700000000000 123456789
           "Scan.Page01.jpg" "../../etc/x.jpg").
  reflexivity.
Defined.

Example upload_ok_status :
  Server.status (Server.post_uploads Sample.cfg Sample.env_ok (Some Sample.jpeg) Sample.empty).2 = 201.
Proof. vm_compute. reflexivity. Qed.

Example upload_ok_file :
  Server.files (Server.post_uploads Sample.cfg Sample.env_ok (Some Sample.jpeg) Sample.empty).1
    !! Sample.stored_name = Some (Server.content Sample.jpeg).
Proof. vm_compute. reflexivity. Qed.

(** ** Upload pipeline *)

Section UploadFacts.

Import Server.

Variables (cfg : Config) (env : Env) (p : Part) (st : State).

Lemma upload_single_admitted :
  (admitted cfg p) ->
  upload_single cfg env (Some p) st
  = (set_files st (<[(storage_name env p) := content p]> (files st)),
     Parsed (Some {| file_filename := (storage_name env p);
                     file_originalname := originalname p;
                     file_mimetype := mimetype p;
                     file_size := blob_size (content p) |})).
Proof.
  intros (Hf & Hm & Hs). unfold upload_single, fileFilter.
  rewrite (bool_decide_eq_true_2 _ Hf), (bool_decide_eq_true_2 _ Hm). simpl.
  destruct (Z.leb_spec (MAX_FILE_SIZE cfg) (blob_size (content p))); [lia|].
  reflexivity.
Qed.

Lemma sizeOf_written :
  sizeOf (set_files st (<[(storage_name env p) := content p]> (files st))) (storage_name env p)
  = blob_probe (content p).
Proof. unfold sizeOf, set_files. simpl. now rewrite lookup_insert_eq. Qed.

Lemma unlink_written :
  unlink (storage_name env p) (set_files st (<[(storage_name env p) := content p]> (files st)))
  = unlink (storage_name env p) st.
Proof. unfold unlink, set_files. simpl. now rewrite delete_insert_eq. Qed.

Lemma unlink_lookup name : files (unlink name st) !! name = None.
Proof. unfold unlink, set_files. simpl. apply lookup_delete_eq. Qed.

Lemma unlink_images name : images (unlink name st) = images st.
Proof. reflexivity. Qed.

(** An upload whose stream does not decode, or decodes to a missing or
    zero dimension, is answered 400 after the stream is unlinked; the
    outcome does not depend on what Prisma would have done. *)
Lemma invalid_image_rejected :
  (admitted cfg p) ->
  invalid_image (blob_probe (content p)) = true ->
  exists msg,
    post_uploads cfg env (Some p) st
    = (unlink (storage_name env p) st, {| status := 400; body := ErrorBody msg |}).
Proof.
  intros Ha Hp. unfold post_uploads. rewrite (upload_single_admitted Ha).
  unfold upload_handler. cbn [file_filename]. rewrite sizeOf_written.
  destruct (blob_probe (content p)) as [|w h].
  - rewrite unlink_written. eexists. reflexivity.
  - simpl in Hp. rewrite Hp, unlink_written. eexists. reflexivity.
Qed.

(** A request whose declared mime type is not allowed stops at the filter:
    nothing is written, and the plain [Error] of the filter falls through
    the multer error middleware to the last one. *)
Lemma disallowed_mime_rejected :
  fieldname p = "image" ->
  mimetype p ∉ allowed ->
  post_uploads cfg env (Some p) st
  = (st, {| status := 500; body := ErrorBody "Something went wrong!" |}).
Proof.
  intros Hf Hm. unfold post_uploads, upload_single, fileFilter.
  rewrite (bool_decide_eq_true_2 _ Hf), (bool_decide_eq_false_2 _ Hm).
  reflexivity.
Qed.

(** A 201 answer means one row was appended, with the decoded dimensions,
    both present and different from zero, and the stream is in place. *)
Lemma created_has_dimensions (req : option Part) (st' : State) (resp : Response) :
  post_uploads cfg env req st = (st', resp) ->
  status resp = 201 ->
  exists image w h,
    images st' = images st ++ [image]
    /\ width image = Some w /\ w <> 0
    /\ height image = Some h /\ h <> 0
    /\ files st' !! filename image <> None.
Proof.
  unfold post_uploads, upload_single. intros H Hs.
  destruct req as [q|]; [|injection H as <- <-; discriminate Hs].
  destruct (negb (bool_decide (fieldname q = "image")));
    [injection H as <- <-; discriminate Hs|].
  destruct (fileFilter (mimetype q)) as [e|] eqn:Ef.
  { unfold fileFilter in Ef. destruct (negb _); [|discriminate Ef].
    injection Ef as <-. injection H as <- <-. discriminate Hs. }
  destruct (MAX_FILE_SIZE cfg <=? blob_size (content q));
    [injection H as <- <-; discriminate Hs|].
  unfold upload_handler in H. cbn [file_filename] in H.
  unfold sizeOf, set_files in H. simpl in H.
  rewrite lookup_insert_eq in H.
  destruct (blob_probe (content q)) as [|w h];
    [injection H as <- <-; discriminate Hs|].
  destruct (falsy w || falsy h) eqn:Ez; [injection H as <- <-; discriminate Hs|].
  destruct (upsert_user env); [|injection H as <- <-; discriminate Hs].
  destruct (create_image env) as [[i a]|]; [|injection H as <- <-; discriminate Hs].
  injection H as <- <-. apply orb_false_elim in Ez as [Ew Eh].
  destruct w as [w|]; [|discriminate Ew]. destruct h as [h|]; [|discriminate Eh].
  simpl in Ew, Eh. eexists _, w, h. simpl.
  repeat split; try reflexivity; try lia.
  rewrite lookup_insert_eq. discriminate.
Qed.

End UploadFacts.

(** C1.  When the request is admitted by multer, its stream decodes to
    non-zero dimensions, the user is resolved and [prisma.image.create]
    throws, the answer is the 500 of the last error middleware, the
    stream written under the storage name is gone, and the table is as it
    was: no row was added, so no row names the removed stream unless one
    did before the request. *)
Theorem create_failure_rolls_back
    (cfg : Server.Config) (env : Server.Env) (p : Server.Part)
    (st : Server.State) (w h : Z) (user : string) :
  Server.admitted cfg p ->
  Server.blob_probe (Server.content p) = Server.Dimensions (Some w) (Some h) ->
  w <> 0 -> h <> 0 ->
  Server.upsert_user env = Some user ->
  Server.create_image env = None ->
  let out := Server.post_uploads cfg env (Some p) st in
  out.2 = {| Server.status := 500;
             Server.body := Server.ErrorBody "Something went wrong!" |}
  /\ Server.files out.1 !! Server.storage_name env p = None
  /\ Server.files out.1 = delete (Server.storage_name env p) (Server.files st)
  /\ Server.images out.1 = Server.images st
  /\ (Forall (fun i => Server.filename i <> Server.storage_name env p) (Server.images st) ->
      Forall (fun i => Server.filename i <> Server.storage_name env p) (Server.images out.1)).
Proof.
  intros Ha Hp Hw Hh Hu Hc out. subst out. unfold Server.post_uploads.
  rewrite (upload_single_admitted cfg env p st Ha).
  unfold Server.upload_handler. cbn [Server.file_filename].
  rewrite sizeOf_written, Hp. simpl Server.falsy.
  destruct (Z.eqb_spec w 0); [contradiction|].
  destruct (Z.eqb_spec h 0); [contradiction|].
  simpl. rewrite Hu, Hc, unlink_written. simpl.
  repeat split; try reflexivity; auto.
  apply lookup_delete_eq.
Qed.

Lemma create_failure_rolls_back_witness :
  (Server.post_uploads Sample.cfg Sample.env_create_fails
     (Some Sample.jpeg) Sample.empty).2
  = {| Server.status := 500;
       Server.body := Server.ErrorBody "Something went wrong!" |}
  /\ Server.files
       (Server.post_uploads Sample.cfg Sample.env_create_fails
          (Some Sample.jpeg) Sample.empty).1 !! Sample.stored_name = None.
Proof.
  pose proof (create_failure_rolls_back Sample.cfg Sample.env_create_fails
                Sample.jpeg Sample.empty 800 1200 "user-1") as H.
  destruct H as (H1 & H2 & _).
  - split; [reflexivity | split; [constructor | reflexivity]].
  - reflexivity.
  - discriminate.
  - discriminate.
  - reflexivity.
  - reflexivity.
  - split; [exact H1 | exact H2].
Defined.

(** C2.  A GIF upload on an empty store: the store is left as it was (no
    bytes, no row), and the answer is the 500 of the last error
    middleware with its fixed message. *)
Theorem disallowed_mime_answer :
  Server.post_uploads Sample.cfg Sample.env_ok (Some Sample.gif) Sample.empty
  = (Sample.empty,
     {| Server.status := 500;
        Server.body := Server.ErrorBody "Something went wrong!" |}).
Proof.
  apply disallowed_mime_rejected; [reflexivity|].
  intros H. apply list_elem_of_In in H. simpl in H.
  destruct H as [H|[H|[]]]; discriminate H.
Qed.

(** C5, as stated, fails: a stream that decodes to width -1 (a non-positive
    width) is kept and recorded with that width, and the answer is 201. *)
Lemma negative_width_is_recorded :
  Spec.non_positive (Some (-1)) = true
  /\ Server.status
       (Server.post_uploads Sample.cfg Sample.env_ok
          (Some Sample.negative_width) Sample.empty).2 = 201
  /\ Server.width <$>
       Server.images
         (Server.post_uploads Sample.cfg Sample.env_ok
            (Some Sample.negative_width) Sample.empty).1 = [Some (-1)]
  /\ Server.files
       (Server.post_uploads Sample.cfg Sample.env_ok
          (Some Sample.negative_width) Sample.empty).1
       !! Sample.stored_name
     = Some (Server.content Sample.negative_width).
Proof. vm_compute. repeat split; reflexivity. Qed.

(** C5, amended.  When the stored stream does not decode, or decodes to a
    width or height that is missing or zero, the answer is a 400 with an
    error message, the stream written under the storage name is gone and
    the table is as it was, whatever the Prisma calls would have returned;
    and every 201 answer appends one row whose width and height are both
    present and different from zero, with its stream in place. *)
Theorem invalid_image_cleanup
    (cfg : Server.Config) (env : Server.Env) (st : Server.State) :
  (forall p : Server.Part,
     Server.admitted cfg p ->
     Server.invalid_image (Server.blob_probe (Server.content p)) = true ->
     let out := Server.post_uploads cfg env (Some p) st in
     Server.status out.2 = 400
     /\ (exists msg, Server.body out.2 = Server.ErrorBody msg)
     /\ Server.files out.1 !! Server.storage_name env p = None
     /\ Server.images out.1 = Server.images st)
  /\ (forall (req : option Server.Part) (st' : Server.State) (resp : Server.Response),
       Server.post_uploads cfg env req st = (st', resp) ->
       Server.status resp = 201 ->
       exists image w h,
         Server.images st' = Server.images st ++ [image]
         /\ Server.width image = Some w /\ w <> 0
         /\ Server.height image = Some h /\ h <> 0
         /\ Server.files st' !! Server.filename image <> None).
Proof.
  split.
  - intros p Ha Hp out. subst out.
    destruct (invalid_image_rejected cfg env p st Ha Hp) as [msg ->]. simpl.
    repeat split; [now exists msg | apply lookup_delete_eq].
  - apply created_has_dimensions.
Qed.

Lemma invalid_image_cleanup_witness :
  Server.status
    (Server.post_uploads Sample.cfg Sample.env_ok
       (Some Sample.zero_height) Sample.empty).2 = 400
  /\ Server.files
       (Server.post_uploads Sample.cfg Sample.env_ok
          (Some Sample.zero_height) Sample.empty).1 !! Sample.stored_name = None
  /\ exists image w h,
       Server.images
         (Server.post_uploads Sample.cfg Sample.env_ok
            (Some Sample.jpeg) Sample.empty).1 = [image]
       /\ Server.width image = Some w /\ w <> 0
       /\ Server.height image = Some h /\ h <> 0.
Proof.
  destruct (invalid_image_cleanup Sample.cfg Sample.env_ok Sample.empty)
    as [Hbad Hgood].
  destruct (Hbad Sample.zero_height) as (H1 & _ & H3 & _).
  - split; [reflexivity | split; [right; constructor | reflexivity]].
  - reflexivity.
  - destruct (Hgood (Some Sample.jpeg) _ _ eq_refl)
      as (image & w & h & Hi & Hw & Hw0 & Hh & Hh0 & _); [reflexivity|].
    split; [exact H1 | split; [exact H3|]].
    exists image, w, h. repeat split; assumption.
Defined.

(** ** Listing *)

Section ListingFacts.

Import Server.

#[local] Instance newer_first_total : Total newer_first.
Proof. intros a b. unfold newer_first. lia. Qed.

#[local] Instance newer_first_trans : Transitive newer_first.
Proof. intros a b c. unfold newer_first. lia. Qed.

Lemma effective_limit_bounds (q : Query) : 1 <= effective_limit q <= 100.
Proof. unfold effective_limit. lia. Qed.

Lemma effective_offset_bounds (q : Query) : 0 <= effective_offset q.
Proof. unfold effective_offset. lia. Qed.

Lemma findMany_length (rows : list Image) (l o : Z) :
  0 <= l -> 0 <= o ->
  Z.of_nat (length (findMany rows l o)) = Z.min l (Z.max (count rows - o) 0).
Proof.
  intros Hl Ho. unfold findMany, count.
  rewrite length_take, length_drop.
  rewrite (Permutation_length (merge_sort_Permutation newer_first rows)).
  lia.
Qed.

Lemma findMany_ordered (rows : list Image) :
  StronglySorted newer_first (merge_sort newer_first rows)
  /\ merge_sort newer_first rows ≡ₚ rows.
Proof.
  split; [apply StronglySorted_merge_sort; apply _ | apply merge_sort_Permutation].
Qed.

(** With distinct timestamps the descending order is unique. *)
Lemma sorted_order_unique (s1 s2 : list Image) :
  s1 ≡ₚ s2 ->
  StronglySorted newer_first s1 ->
  StronglySorted newer_first s2 ->
  NoDup (map uploadedAt s1) ->
  s1 = s2.
Proof.
  revert s2. induction s1 as [|h1 t1 IH]; intros s2 Hp H1 H2 Hnd.
  { now apply Permutation_nil_l in Hp. }
  destruct s2 as [|h2 t2]; [now apply Permutation_nil_r in Hp|].
  apply StronglySorted_inv in H1 as [H1 Hh1].
  apply StronglySorted_inv in H2 as [H2 Hh2].
  cbn [map] in Hnd. apply NoDup_cons in Hnd as [Hfresh Hnd].
  assert (h1 = h2) as <-.
  { assert (h1 ∈ h2 :: t2) as Hin1 by (rewrite <- Hp; left).
    assert (h2 ∈ h1 :: t1) as Hin2 by (rewrite Hp; left).
    apply elem_of_cons in Hin1 as [E|Hin1]; [exact E|].
    apply elem_of_cons in Hin2 as [E|Hin2]; [now symmetry|].
    rewrite Forall_forall in Hh1, Hh2.
    specialize (Hh1 h2 Hin2). specialize (Hh2 h1 Hin1).
    unfold newer_first in Hh1, Hh2.
    exfalso. apply Hfresh.
    replace (uploadedAt h1) with (uploadedAt h2) by lia.
    apply list_elem_of_fmap. now exists h2. }
  f_equal. apply IH; try assumption.
  now apply Permutation_cons_inv in Hp.
Qed.

Lemma get_images_ok (cfg : Config) (q : Query) (st : State) :
  get_images cfg true q st
  = (st, {| status := 200;
            body := PageBody (count (images st)) (effective_limit q)
                      (effective_offset q)
                      (map (fun image => describe cfg (filename image) image)
                         (findMany (images st) (effective_limit q)
                            (effective_offset q))) |}).
Proof. reflexivity. Qed.

Lemma effective_limit_cases (q : Query) :
  effective_limit q
  = match Spec.requested (q_limit q) with
    | Some n => if n =? 0 then 20 else Spec.clamp 1 100 n
    | None => 20
    end.
Proof.
  unfold effective_limit, Spec.requested, Spec.clamp, param, JS.number_or.
  destruct (q_limit q) as [v|]; [|reflexivity].
  destruct (JS.parseInt (to_String v)) as [n|]; [|reflexivity].
  destruct (n =? 0); reflexivity.
Qed.

Lemma effective_offset_cases (q : Query) :
  effective_offset q
  = match Spec.requested (q_offset q) with
    | Some n => Z.max n 0
    | None => 0
    end.
Proof.
  unfold effective_offset, Spec.requested, param, JS.number_or.
  destruct (q_offset q) as [v|]; [|reflexivity].
  destruct (JS.parseInt (to_String v)) as [n|]; [|reflexivity].
  destruct (Z.eqb_spec n 0); [subst; reflexivity | reflexivity].
Qed.

End ListingFacts.

(** C6.  With the store readable, the listing leaves the state as it was
    and answers 200 with [total] the number of rows and with [items] cut
    from the rows in an order [sorted] that is a rearrangement of the
    table with the creation timestamps descending (the only such order
    when the timestamps are distinct): the first [offset] rows are
    skipped, at most [limit] are taken, and each row is answered with its
    own id, storage name, original name, mime type, size, width, height
    and timestamp and with the url made of the configured base
    ([PUBLIC_URL], or [http://localhost:PORT] when that is unset or
    empty), [/uploads/] and the storage name.  Hence the number of items
    is [min limit (max (total - offset) 0)], and an empty table gives no
    items and total 0. *)
Theorem listing_page (cfg : Server.Config) (q : Server.Query) (st : Server.State) :
  let L := Server.effective_limit q in
  let O := Server.effective_offset q in
  let rows := Server.images st in
  let total := Z.of_nat (length rows) in
  let newest_first :=
    StronglySorted (fun a b => Server.uploadedAt b <= Server.uploadedAt a) in
  let base :=
    match Server.PUBLIC_URL cfg with
    | Some u => if decide (u = "") then "http://localhost:" +:+ Server.PORT cfg else u
    | None => "http://localhost:" +:+ Server.PORT cfg
    end in
  let item (image : Server.Image) :=
    {| Server.d_id := Server.id image;
       Server.d_filename := Server.filename image;
       Server.d_originalName := Server.originalName image;
       Server.d_mimeType := Server.mimeType image;
       Server.d_size := Server.size image;
       Server.d_width := Server.width image;
       Server.d_height := Server.height image;
       Server.d_url := base +:+ "/uploads/" +:+ Server.filename image;
       Server.d_uploadedAt := Server.uploadedAt image |} in
  exists sorted : list Server.Image,
    sorted ≡ₚ rows
    /\ newest_first sorted
    /\ (NoDup (map Server.uploadedAt rows) ->
        forall other, other ≡ₚ rows -> newest_first other -> other = sorted)
    /\ Server.get_images cfg true q st
       = (st, {| Server.status := 200;
                 Server.body :=
                   Server.PageBody total L O
                     (map item (take (Z.to_nat L) (drop (Z.to_nat O) sorted))) |})
    /\ Z.of_nat (length (map item (take (Z.to_nat L) (drop (Z.to_nat O) sorted))))
       = Z.min L (Z.max (total - O) 0)
    /\ (forall fs,
          (Server.get_images cfg true q {| Server.files := fs; Server.images := [] |}).2
          = {| Server.status := 200; Server.body := Server.PageBody 0 L O [] |}).
Proof.
  intros L O rows total newest_first base item.
  pose proof (effective_limit_bounds q). pose proof (effective_offset_bounds q).
  destruct (findMany_ordered rows) as [Hsorted Hperm].
  exists (merge_sort Server.newer_first rows).
  split; [exact Hperm|]. split; [exact Hsorted|]. split.
  { intros Hnd other Hp Ho. apply sorted_order_unique.
    - now rewrite Hp, Hperm.
    - exact Ho.
    - exact Hsorted.
    - now rewrite (Permutation_map Server.uploadedAt Hp). }
  split; [reflexivity|]. split.
  { rewrite length_map.
    apply (findMany_length rows L O); subst L O; lia. }
  intros fs. rewrite get_images_ok. unfold Server.findMany, Server.count.
  cbn [Server.images length snd].
  change (merge_sort Server.newer_first []) with (@nil Server.Image).
  now rewrite drop_nil, take_nil.
Qed.

Example listing_three_rows :
  match (Server.get_images Sample.cfg true (Sample.query (Some "2") (Some "1"))
           Sample.three_rows).2 with
  | {| Server.status := s; Server.body := Server.PageBody total limit offset items |} =>
      s = 200 /\ total = 3 /\ limit = 2 /\ offset = 1
      /\ map Server.d_uploadedAt items = [20; 10]
      /\ map Server.d_url items
         = ["http://localhost:3001/uploads/c.png"; "http://localhost:3001/uploads/a.png"]
  | _ => False
  end.
Proof. vm_compute. repeat split; reflexivity. Qed.

(** C7, as stated, fails: a requested limit of 0 is not clamped to the
    lower bound 1; the listing uses (and echoes) 20. *)
Lemma limit_zero_is_not_clamped :
  Spec.requested (Server.q_limit (Sample.query (Some "0") None)) = Some 0
  /\ Spec.clamp 1 100 0 = 1
  /\ Server.effective_limit (Sample.query (Some "0") None) = 20.
Proof. repeat split; reflexivity. Qed.

(** C7, amended.  The effective limit is the requested limit clamped to
    1..100 when the parameter parses to a number other than 0, and 20 when
    it is absent, not numeric or 0; the effective offset is the requested
    offset raised to at least 0, and 0 when absent or not numeric; both lie
    within their bounds and are echoed in the 200 response next to [total]
    and [items]. *)
Theorem pagination_clamped (cfg : Server.Config) (q : Server.Query) (st : Server.State) :
  Server.effective_limit q
  = match Spec.requested (Server.q_limit q) with
    | Some n => if n =? 0 then 20 else Spec.clamp 1 100 n
    | None => 20
    end
  /\ Server.effective_offset q
     = match Spec.requested (Server.q_offset q) with
       | Some n => Z.max n 0
       | None => 0
       end
  /\ 1 <= Server.effective_limit q <= 100
  /\ 0 <= Server.effective_offset q
  /\ exists items,
       (Server.get_images cfg true q st).2
       = {| Server.status := 200;
            Server.body := Server.PageBody (Z.of_nat (length (Server.images st)))
                             (Server.effective_limit q)
                             (Server.effective_offset q) items |}.
Proof.
  split; [|split; [|split; [|split]]].
  - apply effective_limit_cases.
  - apply effective_offset_cases.
  - apply effective_limit_bounds.
  - apply effective_offset_bounds.
  - eexists. rewrite get_images_ok. reflexivity.
Qed.

(** C9.  A limit that is absent, not numeric or 0 gives the default 20; an
    offset that is absent, not numeric or negative gives 0; and whatever
    the two parameters are, the listing answers 200 when the store can be
    read (and the 500 of the last error middleware when it cannot): the
    parameters never lead to a rejection. *)
Theorem pagination_defaults (cfg : Server.Config) (q : Server.Query) (st : Server.State) :
  (Server.q_limit q = None
   \/ Spec.requested (Server.q_limit q) = None
   \/ Spec.requested (Server.q_limit q) = Some 0 ->
   Server.effective_limit q = 20)
  /\ (Server.q_offset q = None
      \/ Spec.requested (Server.q_offset q) = None
      \/ (exists n, Spec.requested (Server.q_offset q) = Some n /\ n < 0) ->
      Server.effective_offset q = 0)
  /\ Server.status (Server.get_images cfg true q st).2 = 200
  /\ (forall db_up,
        Server.status (Server.get_images cfg db_up q st).2
        = if db_up then 200 else 500).
Proof.
  pose proof (effective_limit_cases q) as Hl.
  pose proof (effective_offset_cases q) as Ho.
  split; [|split; [|split]].
  - rewrite Hl. intros [H|[H|H]].
    + rewrite H. reflexivity.
    + rewrite H. reflexivity.
    + rewrite H. reflexivity.
  - rewrite Ho. intros [H|[H|(n & H & Hn)]].
    + rewrite H. reflexivity.
    + rewrite H. reflexivity.
    + rewrite H. lia.
  - reflexivity.
  - intros []; reflexivity.
Qed.

Lemma pagination_defaults_witness :
  Server.effective_limit (Sample.query (Some "0") (Some "-3")) = 20
  /\ Server.effective_offset (Sample.query (Some "0") (Some "-3")) = 0
  /\ Server.effective_limit (Sample.query (Some "abc") None) = 20.
Proof.
  destruct (pagination_defaults Sample.cfg (Sample.query (Some "0") (Some "-3"))
              Sample.empty) as (H1 & H2 & _).
  destruct (pagination_defaults Sample.cfg (Sample.query (Some "abc") None)
              Sample.empty) as (H3 & _).
  split; [apply H1; right; right; reflexivity|].
  split; [apply H2; right; right; exists (-3); split; [reflexivity | lia]|].
  apply H3. right; left. reflexivity.
Defined.

(** ** Gallery fetch cycle *)

Section GalleryFacts.

Import Gallery.

Lemma run_app (evs1 evs2 : list Event) (c : Cycle) (v : View) :
  run (evs1 ++ evs2) c v
  = let '(c', v') := run evs1 c v in run evs2 c' v'.
Proof.
  revert c v. induction evs1 as [|ev evs1 IH]; intros c v; simpl; [reflexivity|].
  destruct (deliver ev c v) as [c' v']. apply IH.
Qed.

(** No branch of [try_block] stores items once the flag is set. *)
Lemma try_block_cancelled (o : Outcome) :
  match try_block true o with
  | SetItems _ => False
  | _ => True
  end.
Proof. destruct o as [e|[] data]; exact I. Qed.

(** One event on a cancelled cycle: the rendered state, the timers and the
    request count stay, and so does the flag. *)
Lemma deliver_cancelled (ev : Event) (c : Cycle) (v : View) :
  cancelled c = true ->
  (deliver ev c v).2 = v
  /\ cancelled (deliver ev c v).1 = true
  /\ timers (deliver ev c v).1 = timers c
  /\ requests (deliver ev c v).1 = requests c.
Proof.
  intros Hc. unfold deliver.
  destruct ev as [o|], (pending c) as [|n|n]; simpl; auto.
  - unfold resume. rewrite Hc. pose proof (try_block_cancelled o) as Ho.
    destruct (try_block true o) as [e| |l]; [|auto|contradiction].
    unfold catch_block. rewrite Hc. simpl. auto.
  - unfold load. rewrite Hc. simpl. auto.
Qed.

Lemma run_cancelled (evs : list Event) (c : Cycle) (v : View) :
  cancelled c = true ->
  (run evs c v).2 = v
  /\ cancelled (run evs c v).1 = true
  /\ timers (run evs c v).1 = timers c
  /\ requests (run evs c v).1 = requests c.
Proof.
  revert c v. induction evs as [|ev evs IH]; intros c v Hc; simpl; [auto|].
  destruct (deliver_cancelled ev c v Hc) as (Hv & Hf & Ht & Hr).
  destruct (deliver ev c v) as [c' v']. simpl in *.
  destruct (IH c' v' Hf) as (Hv' & Hf' & Ht' & Hr').
  rewrite Hv', Ht', Hr'. subst v'. auto.
Qed.

(** Delivering an event never changes the flag of a cycle. *)
Lemma deliver_keeps_flag (ev : Event) (c : Cycle) (v : View) :
  cancelled (deliver ev c v).1 = cancelled c.
Proof.
  unfold deliver. destruct ev as [o|], (pending c) as [|n|n]; simpl; auto.
  - unfold resume, catch_block.
    destruct (try_block (cancelled c) o) as [e| |l]; simpl; auto.
    destruct (cancelled c) eqn:Hc; simpl; [congruence|].
    destruct (negb _ && _); simpl; congruence.
  - unfold load. destruct (cancelled c) eqn:Hc; simpl; congruence.
Qed.

Lemma cleanup_current_tail (cs : list Cycle) :
  Forall (fun c => cancelled c = true) (tail cs) ->
  Forall (fun c => cancelled c = true) (cleanup_current cs).
Proof. destruct cs as [|c cs]; simpl; intros H; constructor; auto. Qed.

Lemma react_superseded (a : Action) (g : Component) :
  superseded_cancelled g -> superseded_cancelled (react a g).
Proof.
  unfold superseded_cancelled. intros H. destruct a as [| |i ev]; simpl.
  - destruct (effect (view g)) as [c v]. simpl. now apply cleanup_current_tail.
  - destruct (cycles g) as [|c cs]; simpl in *; assumption.
  - destruct (cycles g !! i) as [c|] eqn:E; [|assumption].
    pose proof (deliver_keeps_flag ev c (view g)) as Hf.
    destruct (deliver ev c (view g)) as [c' v']. simpl in *.
    destruct (cycles g) as [|c0 cs]; [discriminate E|].
    destruct i as [|i]; simpl in *; [assumption|].
    apply Forall_insert; [assumption|].
    rewrite Hf. eapply Forall_lookup_1 in H; [exact H | exact E].
Qed.

Lemma reachable_superseded (acts : list Action) :
  superseded_cancelled (react_all acts mount).
Proof.
  unfold react_all. rewrite <- fold_left_rev_right.
  induction (rev acts) as [|a l IH]; simpl.
  - constructor.
  - now apply react_superseded.
Qed.

End GalleryFacts.

(** C3.  Once a cycle has been cleaned up, no sequence of events delivered
    to it (responses, rejections, aborts, timers) changes the rendered
    state, schedules a timer or issues a request.  In the component, an
    event delivered to any cancelled cycle leaves the rendered state as it
    was; every cycle that a refresh has superseded is cancelled, and so is
    the current one after the component is torn down. *)
Theorem cancelled_cycle_is_inert :
  (forall (c : Gallery.Cycle) (v : Gallery.View) (evs : list Gallery.Event),
     (Gallery.run evs (Gallery.cleanup c) v).2 = v
     /\ Gallery.timers (Gallery.run evs (Gallery.cleanup c) v).1 = Gallery.timers c
     /\ Gallery.requests (Gallery.run evs (Gallery.cleanup c) v).1 = Gallery.requests c)
  /\ (forall (g : Gallery.Component) (i : nat) (c : Gallery.Cycle) (ev : Gallery.Event),
        Gallery.cycles g !! i = Some c ->
        Gallery.cancelled c = true ->
        Gallery.view (Gallery.react (Gallery.Deliver i ev) g) = Gallery.view g)
  /\ (forall (acts : list Gallery.Action) (i : nat) (c : Gallery.Cycle),
        Gallery.cycles (Gallery.react_all acts Gallery.mount) !! S i = Some c ->
        Gallery.cancelled c = true)
  /\ (forall (acts : list Gallery.Action) (i : nat) (c : Gallery.Cycle),
        Gallery.cycles
          (Gallery.react Gallery.Unmount (Gallery.react_all acts Gallery.mount)) !! i
        = Some c ->
        Gallery.cancelled c = true).
Proof.
  split; [|split; [|split]].
  - intros c v evs.
    destruct (run_cancelled evs (Gallery.cleanup c) v eq_refl) as (Hv & _ & Ht & Hr).
    auto.
  - intros g i c ev Hi Hc. simpl. rewrite Hi.
    pose proof (deliver_cancelled ev c (Gallery.view g) Hc) as [Hv _].
    destruct (Gallery.deliver ev c (Gallery.view g)) as [c' v']. exact Hv.
  - intros acts i c Hi.
    pose proof (reachable_superseded acts) as H.
    unfold Gallery.superseded_cancelled in H.
    destruct (Gallery.cycles (Gallery.react_all acts Gallery.mount)) as [|c0 cs];
      [discriminate Hi|].
    simpl in *. eapply Forall_lookup_1 in H; [exact H | exact Hi].
  - intros acts i c Hi.
    pose proof (reachable_superseded acts) as H.
    unfold Gallery.superseded_cancelled in H. simpl in Hi.
    destruct (Gallery.cycles (Gallery.react_all acts Gallery.mount)) as [|c0 cs];
      [discriminate Hi|].
    destruct i as [|i]; simpl in *.
    + injection Hi as <-. reflexivity.
    + eapply Forall_lookup_1 in H; [exact H | exact Hi].
Qed.

(** A refresh during the back-off of the first cycle: the old timer fires
    afterwards, and so does a late response, without any effect. *)
Lemma cancelled_cycle_is_inert_witness :
  let failure := Gallery.Rejected {| Gallery.name := "TypeError";
                                     Gallery.message := "Failed to fetch" |} in
  let g := Gallery.react_all
             [Gallery.Deliver 0 (Gallery.Settled failure); Gallery.Refresh]
             Gallery.mount in
  Gallery.view
    (Gallery.react (Gallery.Deliver 1 Gallery.TimerFired) g) = Gallery.view g
  /\ Gallery.view
       (Gallery.react
          (Gallery.Deliver 1 (Gallery.Settled (Gallery.Response true (Gallery.JObj []))))
          g) = Gallery.view g.
Proof.
  intros failure g.
  destruct cancelled_cycle_is_inert as (_ & Hview & Hold & _).
  assert (exists c, Gallery.cycles g !! 1%nat = Some c) as [c Hc]
    by (eexists; reflexivity).
  pose proof (Hold _ 0%nat c Hc) as Hcancelled.
  split; eapply Hview; eassumption.
Defined.

Section BackoffFacts.

Import Gallery.

Lemma effect_start (v : View) : effect v = (attempting 0, waiting v).
Proof. reflexivity. Qed.

(** One failed attempt below the ceiling: a single timer, nothing rendered. *)
Lemma failed_attempt_retries (n : nat) (o : Outcome) (e : Thrown)
    (c : Cycle) (v : View) :
  cancelled c = false ->
  pending c = Fetching n ->
  caught o = Some e ->
  name e <> "AbortError" ->
  (n < 5)%nat ->
  deliver (Settled o) c v
  = ({| cancelled := false; aborted := aborted c; pending := Sleeping (n + 1);
        timers := timers c ++ [delay n]; requests := requests c |}, v).
Proof.
  intros Hc Hp Ho He Hn. unfold deliver, resume. rewrite Hp, Hc.
  unfold caught in Ho. destruct (try_block false o) as [e'| |l]; try discriminate Ho.
  injection Ho as ->. unfold catch_block. rewrite Hc.
  rewrite (bool_decide_eq_false_2 _ He).
  destruct (Nat.ltb_spec n 5) as [_|]; [reflexivity | lia].
Qed.

(** One failed attempt at the ceiling (or an abort): the error is shown. *)
Lemma failed_attempt_gives_up (o : Outcome) (e : Thrown) (c : Cycle) (v : View) :
  cancelled c = false ->
  pending c = Fetching 5 ->
  caught o = Some e ->
  deliver (Settled o) c v
  = (set_pending Idle c,
     {| items := items v;
        error := Some (JS.string_or (message e) fallback);
        loading := false |}).
Proof.
  intros Hc Hp Ho. unfold deliver, resume. rewrite Hp, Hc.
  unfold caught in Ho. destruct (try_block false o) as [e'| |l]; try discriminate Ho.
  injection Ho as ->. unfold catch_block. rewrite Hc.
  rewrite andb_false_r. reflexivity.
Qed.

Lemma retrying_snoc (os : list Outcome) (o : Outcome) :
  retrying (os ++ [o]) = retrying os ++ [Settled o; TimerFired].
Proof. unfold retrying. rewrite flat_map_app. simpl. reflexivity. Qed.

(** After [k <= 5] failed attempts and their timers, attempt [k] is in
    flight, the delays scheduled are those of attempts [0..k-1], and the
    rendered state is still loading, without error. *)
Lemma backoff_trace (os : list Outcome) (v : View) :
  Forall transient os ->
  (length os <= 5)%nat ->
  run_effect (retrying os) v = (attempting (length os), waiting v).
Proof.
  unfold run_effect. rewrite effect_start.
  induction os as [|o os IH] using rev_ind; intros Hos Hlen; [reflexivity|].
  apply Forall_app in Hos as [Hos Ho]. inversion Ho as [|? ? (e & He & Hn) _]; subst.
  rewrite length_app in *. simpl in Hlen.
  rewrite retrying_snoc, run_app, IH; [|assumption|lia].
  cbn [run].
  rewrite (failed_attempt_retries (length os) o e) by (auto; simpl; lia).
  unfold deliver, load. cbn [pending cancelled].
  replace (length os + 1)%nat with (S (length os)) by lia.
  cbn [Nat.eqb]. unfold attempting, waiting, setError. simpl.
  replace (length os + 1)%nat with (S (length os)) by lia.
  rewrite seq_S, map_app. reflexivity.
Qed.

End BackoffFacts.

Section CycleFacts.

Import Gallery.

Lemma run_effect_app (evs1 evs2 : list Event) (v : View) :
  run_effect (evs1 ++ evs2) v
  = run evs2 (run_effect evs1 v).1 (run_effect evs1 v).2.
Proof.
  unfold run_effect. destruct (effect v) as [c v']. rewrite run_app.
  destruct (run evs1 c v') as [c1 v1]. reflexivity.
Qed.

Lemma delays : map delay (seq 0 5) = [1000; 2000; 4000; 8000; 8000].
Proof. reflexivity. Qed.

(** The sixth failure in a row ends the cycle in the error state. *)
Lemma six_failures (os : list Outcome) (o : Outcome) (e : Thrown) (v : View) :
  Forall transient os ->
  length os = 5%nat ->
  caught o = Some e ->
  run_effect (retrying os ++ [Settled o]) v
  = ({| cancelled := false; aborted := false; pending := Idle;
        timers := [1000; 2000; 4000; 8000; 8000]; requests := 6 |},
     {| items := items v;
        error := Some (JS.string_or (message e) fallback);
        loading := false |}).
Proof.
  intros Hos Hlen Ho. rewrite run_effect_app, backoff_trace by (auto; lia).
  rewrite Hlen. cbn [run fst snd].
  rewrite (failed_attempt_gives_up o e) by auto. reflexivity.
Qed.

(** An ok response carrying an array of items ends the cycle in the
    success state, at whichever attempt it arrives. *)
Lemma success_after_retries (os : list Outcome) (data : json) (l : list json)
    (v : View) :
  Forall transient os ->
  (length os <= 5)%nat ->
  member data "items" = Some (Some (JArr l)) ->
  run_effect (retrying os ++ [Settled (Response true data)]) v
  = (set_pending Idle (attempting (length os)),
     {| items := l; error := None; loading := false |}).
Proof.
  intros Hos Hlen Hd. rewrite run_effect_app, backoff_trace by auto.
  cbn [run fst snd]. unfold deliver, resume, try_block. simpl.
  rewrite Hd. reflexivity.
Qed.

(** An ok response whose body is not [null] and has no array under
    [items] ends a running attempt in the success state with no items. *)
Lemma non_array_items (n : nat) (c : Cycle) (v : View) (data : json) :
  cancelled c = false ->
  data <> JNull ->
  (forall l, opt_member data "items" <> Some (JArr l)) ->
  deliver (Settled (Response true data)) (load n c v).1 (load n c v).2
  = (set_pending Idle (load n c v).1,
     {| items := []; error := None; loading := false |}).
Proof.
  intros Hc Hnull Harr. unfold load. rewrite Hc. cbn [fst snd].
  unfold deliver, resume, try_block. cbn [pending cancelled negb].
  unfold opt_member in Harr.
  destruct (member data "items") as [v0|] eqn:Hm.
  - assert (items_of v0 = []) as ->.
    { destruct v0 as [[]|]; try reflexivity. now destruct (Harr l). }
    destruct (n =? 0)%nat; reflexivity.
  - destruct data; try discriminate Hm. now destruct Hnull.
Qed.

End CycleFacts.

(** C4.  A failed attempt of a running cycle that is not an abort and
    whose attempt number is below 5 schedules one timer, of
    [min (1000 * 2^attempt) 8000] milliseconds, and renders nothing: the
    delays are 1, 2, 4, 8 and 8 seconds, and after any number of such
    failures up to 5 the state is still loading, without error.  After
    five such failures a sixth failure ends the cycle in the error state
    with the message of that failure (the fixed text when it is empty),
    five timers having been set and six requests made.  An ok response
    with an array of items, at any attempt, ends the cycle in the success
    state holding those items. *)
Theorem backoff_and_ceiling :
  (forall (n : nat) (o : Gallery.Outcome) (e : Gallery.Thrown)
          (c : Gallery.Cycle) (v : Gallery.View),
     Gallery.cancelled c = false ->
     Gallery.pending c = Gallery.Fetching n ->
     Gallery.caught o = Some e ->
     Gallery.name e <> "AbortError" ->
     (n < 5)%nat ->
     Gallery.deliver (Gallery.Settled o) c v
     = ({| Gallery.cancelled := false;
           Gallery.aborted := Gallery.aborted c;
           Gallery.pending := Gallery.Sleeping (n + 1);
           Gallery.timers :=
             Gallery.timers c ++ [Z.min (1000 * 2 ^ Z.of_nat n) 8000];
           Gallery.requests := Gallery.requests c |}, v))
  /\ map Gallery.delay (seq 0 5) = [1000; 2000; 4000; 8000; 8000]
  /\ (forall (os : list Gallery.Outcome) (v : Gallery.View),
        Forall Gallery.transient os ->
        (length os <= 5)%nat ->
        Gallery.run_effect (Gallery.retrying os) v
        = ({| Gallery.cancelled := false; Gallery.aborted := false;
              Gallery.pending := Gallery.Fetching (length os);
              Gallery.timers := map Gallery.delay (seq 0 (length os));
              Gallery.requests := S (length os) |},
           {| Gallery.items := Gallery.items v;
              Gallery.error := None;
              Gallery.loading := true |}))
  /\ (forall (os : list Gallery.Outcome) (o : Gallery.Outcome) (e : Gallery.Thrown)
             (v : Gallery.View),
        Forall Gallery.transient os ->
        length os = 5%nat ->
        Gallery.caught o = Some e ->
        Gallery.run_effect (Gallery.retrying os ++ [Gallery.Settled o]) v
        = ({| Gallery.cancelled := false; Gallery.aborted := false;
              Gallery.pending := Gallery.Idle;
              Gallery.timers := [1000; 2000; 4000; 8000; 8000];
              Gallery.requests := 6 |},
           {| Gallery.items := Gallery.items v;
              Gallery.error :=
                Some (if decide (Gallery.message e = "")
                      then "Failed to load images" else Gallery.message e);
              Gallery.loading := false |}))
  /\ (forall (os : list Gallery.Outcome) (data : Gallery.json)
             (l : list Gallery.json) (v : Gallery.View),
        Forall Gallery.transient os ->
        (length os <= 5)%nat ->
        Gallery.member data "items" = Some (Some (Gallery.JArr l)) ->
        (Gallery.run_effect
           (Gallery.retrying os ++ [Gallery.Settled (Gallery.Response true data)]) v).2
        = {| Gallery.items := l; Gallery.error := None; Gallery.loading := false |}).
Proof.
  split; [|split; [|split; [|split]]].
  - intros n o e c v Hc Hp Ho He Hn.
    apply (failed_attempt_retries n o e c v Hc Hp Ho He Hn).
  - reflexivity.
  - intros os v Hos Hlen. apply (backoff_trace os v Hos Hlen).
  - intros os o e v Hos Hlen Ho. apply (six_failures os o e v Hos Hlen Ho).
  - intros os data l v Hos Hlen Hd.
    now rewrite (success_after_retries os data l v Hos Hlen Hd).
Qed.

Lemma backoff_and_ceiling_witness :
  Gallery.run_effect
    (Gallery.retrying
       [Sample.network_failure; Sample.bad_gateway; Sample.network_failure;
        Sample.network_failure; Sample.network_failure]
     ++ [Gallery.Settled Sample.bad_gateway]) Gallery.initial_view
  = ({| Gallery.cancelled := false; Gallery.aborted := false;
        Gallery.pending := Gallery.Idle;
        Gallery.timers := [1000; 2000; 4000; 8000; 8000];
        Gallery.requests := 6 |},
     {| Gallery.items := []; Gallery.error := Some "Bad gateway";
        Gallery.loading := false |})
  /\ (Gallery.run_effect
        (Gallery.retrying [Sample.network_failure; Sample.bad_gateway]
         ++ [Gallery.Settled (Sample.page [Gallery.JStr "a"])])
        Gallery.initial_view).2
     = {| Gallery.items := [Gallery.JStr "a"]; Gallery.error := None;
          Gallery.loading := false |}.
Proof.
  destruct backoff_and_ceiling as (_ & _ & _ & Hsix & Hsuccess).
  assert (Gallery.transient Sample.network_failure) as Hn
    by (eexists; split; [reflexivity | discriminate]).
  assert (Gallery.transient Sample.bad_gateway) as Hb
    by (eexists; split; [reflexivity | discriminate]).
  split.
  - rewrite (Hsix _ Sample.bad_gateway (Gallery.status_error
               (Gallery.JObj [("error", Gallery.JStr "Bad gateway")])));
      [reflexivity | repeat constructor; assumption | reflexivity | reflexivity].
  - apply Hsuccess; [repeat constructor; assumption | simpl; lia | reflexivity].
Defined.

(** C10, as stated, fails: an ok response whose body is [null] has no
    array under [items], yet the cycle does not reach the success state;
    the attempt counts as failed and a retry is scheduled while the state
    stays loading. *)
Lemma null_body_is_retried :
  Gallery.items_of (Gallery.opt_member Gallery.JNull "items") = []
  /\ Gallery.run_effect [Gallery.Settled (Gallery.Response true Gallery.JNull)]
       Gallery.initial_view
     = ({| Gallery.cancelled := false; Gallery.aborted := false;
           Gallery.pending := Gallery.Sleeping 1;
           Gallery.timers := [1000]; Gallery.requests := 1 |},
        {| Gallery.items := []; Gallery.error := None; Gallery.loading := true |}).
Proof. split; reflexivity. Qed.

(** C10, amended.  When a running attempt receives an ok response whose
    body is not [null] and whose [items] is missing or not an array, the
    rendered items become the empty list, loading ends and no error is
    shown; the cycle is over. *)
Theorem non_array_items_give_empty_list
    (n : nat) (c : Gallery.Cycle) (v : Gallery.View) (data : Gallery.json) :
  Gallery.cancelled c = false ->
  data <> Gallery.JNull ->
  (forall l, Gallery.opt_member data "items" <> Some (Gallery.JArr l)) ->
  Gallery.deliver (Gallery.Settled (Gallery.Response true data))
    (Gallery.load n c v).1 (Gallery.load n c v).2
  = (Gallery.set_pending Gallery.Idle (Gallery.load n c v).1,
     {| Gallery.items := []; Gallery.error := None; Gallery.loading := false |}).
Proof. apply non_array_items. Qed.

Lemma non_array_items_give_empty_list_witness :
  Gallery.run_effect
    [Gallery.Settled
       (Gallery.Response true (Gallery.JObj [("items", Gallery.JStr "none")]))]
    {| Gallery.items := [Gallery.JNum 7]; Gallery.error := Some "old";
       Gallery.loading := false |}
  = ({| Gallery.cancelled := false; Gallery.aborted := false;
        Gallery.pending := Gallery.Idle; Gallery.timers := [];
        Gallery.requests := 1 |},
     {| Gallery.items := []; Gallery.error := None; Gallery.loading := false |}).
Proof.
  unfold Gallery.run_effect, Gallery.effect. cbn [Gallery.run].
  rewrite (surjective_pairing (Gallery.load 0 Gallery.fresh _)).
  rewrite (non_array_items_give_empty_list 0 Gallery.fresh);
    [reflexivity | reflexivity | discriminate | intros l; discriminate].
Defined.

(** * Further properties of the code *)

(** ** Upload pipeline: every path of [POST /api/v1/uploads] *)

Section UploadPaths.

Import Server.

Variables (cfg : Config) (env : Env) (st : State).

(** The request as the pipeline sees it, path by path. *)
Lemma post_uploads_paths (req : option Part) :
  match req with
  | None =>
      post_uploads cfg env req st
      = (st, {| status := 400; body := ErrorBody "No file uploaded" |})
  | Some p =>
      if bool_decide (fieldname p = "image") then
        if bool_decide (mimetype p ∈ allowed) then
          if MAX_FILE_SIZE cfg <=? blob_size (content p) then
            post_uploads cfg env req st
            = (unlink (storage_name env p) st,
               {| status := 413; body := ErrorBody "File too large. Max 10MB." |})
          else if invalid_image (blob_probe (content p)) then
            exists msg,
              post_uploads cfg env req st
              = (unlink (storage_name env p) st,
                 {| status := 400; body := ErrorBody msg |})
          else
            match upsert_user env, create_image env with
            | None, _ =>
                post_uploads cfg env req st
                = (set_files st (<[storage_name env p := content p]> (files st)),
                   {| status := 500; body := ErrorBody "Something went wrong!" |})
            | Some _, None =>
                post_uploads cfg env req st
                = (unlink (storage_name env p) st,
                   {| status := 500; body := ErrorBody "Something went wrong!" |})
            | Some user, Some (new_id, at_) =>
                exists image,
                  image = {| id := new_id; filename := storage_name env p;
                             originalName := originalname p;
                             mimeType := mimetype p;
                             size := blob_size (content p);
                             width := match blob_probe (content p) with
                                      | Dimensions w _ => w
                                      | Undecodable => None
                                      end;
                             height := match blob_probe (content p) with
                                       | Dimensions _ h => h
                                       | Undecodable => None
                                       end;
                             uploadedAt := at_; userId := user |}
                  /\ post_uploads cfg env req st
                     = ({| files := <[storage_name env p := content p]> (files st);
                           images := images st ++ [image] |},
                        {| status := 201;
                           body := ImageBody (describe cfg (storage_name env p) image) |})
            end
        else
          post_uploads cfg env req st
          = (st, {| status := 500; body := ErrorBody "Something went wrong!" |})
      else
        post_uploads cfg env req st
        = (st, {| status := 400; body := ErrorBody "Unexpected field" |})
  end.
Proof.
  destruct req as [p|]; [|reflexivity].
  destruct (bool_decide (fieldname p = "image")) eqn:Ef.
  2:{ unfold post_uploads, upload_single. rewrite Ef. reflexivity. }
  destruct (bool_decide (mimetype p ∈ allowed)) eqn:Em.
  2:{ unfold post_uploads, upload_single, fileFilter. rewrite Ef, Em. reflexivity. }
  destruct (MAX_FILE_SIZE cfg <=? blob_size (content p)) eqn:Es.
  { unfold post_uploads, upload_single, fileFilter. rewrite Ef, Em, Es. reflexivity. }
  assert (admitted cfg p) as Ha.
  { repeat split.
    - now apply bool_decide_eq_true_1 in Ef.
    - now apply bool_decide_eq_true_1 in Em.
    - apply Z.leb_gt in Es. exact Es. }
  destruct (invalid_image (blob_probe (content p))) eqn:Ei.
  { apply invalid_image_rejected; assumption. }
  unfold post_uploads. rewrite (upload_single_admitted cfg env p st Ha).
  unfold upload_handler. cbn [file_filename]. rewrite sizeOf_written.
  destruct (blob_probe (content p)) as [|w h]; [discriminate Ei|].
  simpl in Ei. rewrite Ei.
  destruct (upsert_user env) as [user|]; [|reflexivity].
  destruct (create_image env) as [[new_id at_]|].
  - eexists. split; reflexivity.
  - rewrite unlink_written. reflexivity.
Qed.

End UploadPaths.

Section UploadOutcomes.

Import Server.

Variables (cfg : Config) (env : Env) (st : State).

Ltac upload_cases req H :=
  pose proof (post_uploads_paths cfg env st req) as H;
  destruct req as [?p|]; cbn beta iota in H;
  [ repeat case_bool_decide;
    [ match type of H with
      | context [Z.leb ?a ?b] => destruct (Z.leb_spec a b)
      end;
      [ | destruct (invalid_image (blob_probe (content p))) eqn:?Hinv;
          [ destruct H as [?msg H]
          | destruct (upsert_user env) as [?user|] eqn:?Hup;
            [ destruct (create_image env) as [[?new_id ?at_]|] eqn:?Hcr;
              [ destruct H as (?image & ?Himage & H) | ]
            | ] ] ]
    | | ]
  | ].

(** X1.  The status of an upload answer, case by case: 201 exactly when
    multer admits the file, the stored image is valid and both Prisma
    calls succeed; 413 exactly when an allowed file under the right field
    reaches the size limit (a stream of exactly [MAX_FILE_SIZE] bytes
    included); 400 exactly when there is no file, the field name is
    wrong, or an admitted file is not a valid image; 500 exactly when the
    mime type is refused by the filter or a Prisma call fails. *)
Theorem upload_status_table (req : option Part) :
  let r := (post_uploads cfg env req st).2 in
  (status r = 201 <->
   exists p, req = Some p /\ admitted cfg p
             /\ invalid_image (blob_probe (content p)) = false
             /\ upsert_user env <> None /\ create_image env <> None)
  /\ (status r = 413 <->
      exists p, req = Some p /\ fieldname p = "image" /\ mimetype p ∈ allowed
                /\ MAX_FILE_SIZE cfg <= blob_size (content p))
  /\ (status r = 400 <->
      req = None
      \/ exists p, req = Some p
                   /\ (fieldname p <> "image"
                       \/ (admitted cfg p
                           /\ invalid_image (blob_probe (content p)) = true)))
  /\ (status r = 500 <->
      exists p, req = Some p /\ fieldname p = "image"
                /\ (mimetype p ∉ allowed
                    \/ (admitted cfg p
                        /\ invalid_image (blob_probe (content p)) = false
                        /\ (upsert_user env = None \/ create_image env = None)))).
Proof.
  intros r. subst r. unfold admitted.
  upload_cases req H; rewrite H; cbn [snd status]; clear H;
    repeat split; intros; try discriminate;
    repeat match goal with
           | H : exists _, _ |- _ => destruct H
           | H : _ /\ _ |- _ => destruct H
           | H : _ \/ _ |- _ => destruct H
           | H : Some _ = Some _ |- _ => injection H as H; subst
           end;
    try discriminate; try contradiction; try congruence; try lia;
    try (solve [eauto 15]).
Qed.

(** The limit itself is refused, one byte less is stored. *)
Example upload_at_the_limit :
  (post_uploads Sample.cfg Sample.env_ok
     (Some (UploadArea.form Cases.ten_megabytes)) Sample.empty).2
  = {| status := 413; body := ErrorBody "File too large. Max 10MB." |}
  /\ status
       (post_uploads Sample.cfg Sample.env_ok
          (Some (UploadArea.form Cases.one_byte_less)) Sample.empty).2 = 201.
Proof. vm_compute. split; reflexivity. Qed.

Lemma backed_unlink (name : string) :
  Store.unused name st -> Store.backed st -> Store.backed (unlink name st).
Proof.
  unfold Store.unused, Store.backed. cbn [unlink set_files files images].
  rewrite !Forall_forall. intros Hu Hb i Hi.
  rewrite lookup_delete_ne; [now apply Hb | intros E; now apply (Hu i Hi)].
Qed.

Lemma backed_insert (name : string) (b : Blob) :
  Store.backed st -> Store.backed (set_files st (<[name := b]> (files st))).
Proof.
  unfold Store.backed. cbn [set_files files images].
  rewrite !Forall_forall. intros Hb i Hi.
  destruct (decide (name = filename i)) as [->|Hne].
  - rewrite lookup_insert_eq. discriminate.
  - rewrite lookup_insert_ne by exact Hne. now apply Hb.
Qed.


(** X3.  When the file is admitted, the image is valid and the user
    upsert throws, the answer is 500 and the table is unchanged, but the
    stream written by multer stays in the upload directory: this path has
    no clean-up. *)
Theorem upsert_failure_keeps_stream (p : Part) :
  admitted cfg p ->
  invalid_image (blob_probe (content p)) = false ->
  upsert_user env = None ->
  let out := post_uploads cfg env (Some p) st in
  status out.2 = 500
  /\ images out.1 = images st
  /\ files out.1 !! storage_name env p = Some (content p)
  /\ (Store.unused (storage_name env p) st ->
      Forall (fun i => filename i <> storage_name env p) (images out.1)).
Proof.
  intros (Hf & Hm & Hs) Hi Hu out. subst out.
  pose proof (post_uploads_paths cfg env st (Some p)) as H. cbn beta iota in H.
  rewrite (bool_decide_eq_true_2 _ Hf), (bool_decide_eq_true_2 _ Hm) in H.
  destruct (Z.leb_spec (MAX_FILE_SIZE cfg) (blob_size (content p))); [lia|].
  rewrite Hi, Hu in H. rewrite H. cbn [fst snd status set_files files images].
  repeat split; [apply lookup_insert_eq | auto].
Qed.

(** X4.  The rejections that never reach the handler.  A form without a
    file is answered 400 and a file under another field name is answered
    400, both with the store untouched; an allowed file over the size
    limit is answered 413 with the fixed ten-megabyte message, whatever
    the configured limit, its partial stream removed and the table
    unchanged. *)
Theorem early_rejections :
  post_uploads cfg env None st
  = (st, {| status := 400; body := ErrorBody "No file uploaded" |})
  /\ (forall p, fieldname p <> "image" ->
      post_uploads cfg env (Some p) st
      = (st, {| status := 400; body := ErrorBody "Unexpected field" |}))
  /\ (forall p,
        fieldname p = "image" -> mimetype p ∈ allowed ->
        MAX_FILE_SIZE cfg < blob_size (content p) ->
        let out := post_uploads cfg env (Some p) st in
        out.2 = {| status := 413; body := ErrorBody "File too large. Max 10MB." |}
        /\ files out.1 !! storage_name env p = None
        /\ images out.1 = images st).
Proof.
  split; [reflexivity|]. split.
  - intros p Hf. pose proof (post_uploads_paths cfg env st (Some p)) as H.
    cbn beta iota in H. now rewrite (bool_decide_eq_false_2 _ Hf) in H.
  - intros p Hf Hm Hs out. subst out.
    pose proof (post_uploads_paths cfg env st (Some p)) as H. cbn beta iota in H.
    rewrite (bool_decide_eq_true_2 _ Hf), (bool_decide_eq_true_2 _ Hm) in H.
    destruct (Z.leb_spec (MAX_FILE_SIZE cfg) (blob_size (content p))); [|lia].
    rewrite H. cbn [fst snd unlink set_files files images].
    repeat split. apply lookup_delete_eq.
Qed.

(** X5.  If every row has its stream and the storage name drawn for the
    request is not the name of an existing row, then every row still has
    its stream after the request, whichever path it took. *)
Theorem backed_preserved (req : option Part) :
  Store.backed st ->
  (forall p, req = Some p -> Store.unused (storage_name env p) st) ->
  Store.backed (post_uploads cfg env req st).1.
Proof.
  intros Hb Hfresh.
  upload_cases req H; rewrite H; cbn [fst];
    try exact Hb;
    try (apply backed_unlink; [now apply Hfresh | exact Hb]);
    try (now apply backed_insert).
  subst image. pose proof (backed_insert (storage_name env p) (content p) Hb) as Hb'.
  unfold Store.backed in *. cbn [set_files files images] in *.
  apply Forall_app. split; [exact Hb'|].
  constructor; [|constructor]. cbn [filename].
  rewrite lookup_insert_eq. discriminate.
Qed.

End UploadOutcomes.

(** ** Decimal numbers: printing and [parseInt] *)

Section Decimal.

Import Numeral.

Lemma read_digits_uint (d : Decimal.uint) (seen : bool) (acc : Z) :
  JS.read_digits (list_ascii_of_string (NilEmpty.string_of_uint d)) seen acc
  = match d with
    | Decimal.Nil => if seen then Some acc else None
    | _ => Some (digits_onto d acc)
    end.
Proof.
  revert seen acc. induction d; intros seen acc; [reflexivity|..];
    cbn [NilEmpty.string_of_uint list_ascii_of_string JS.read_digits];
    match goal with
    | |- context [JS.digit_value ?c] =>
        let v := eval vm_compute in (JS.digit_value c) in
        change (JS.digit_value c) with v
    end;
    cbv iota beta; rewrite IHd; destruct d; reflexivity.
Qed.

Lemma digits_onto_pos (d : Decimal.uint) (acc : positive) :
  digits_onto d (Z.pos acc) = Z.pos (Pos.of_uint_acc d acc).
Proof.
  revert acc. induction d; intros acc; cbn [digits_onto Pos.of_uint_acc];
    [reflexivity|..]; rewrite <- IHd; f_equal; lia.
Qed.

Lemma digits_onto_zero (d : Decimal.uint) :
  digits_onto d 0 = Z.of_N (Pos.of_uint d).
Proof.
  induction d; cbn [digits_onto Pos.of_uint]; [reflexivity | exact IHd |..];
    rewrite Z.mul_0_r, Z.add_0_l, digits_onto_pos; reflexivity.
Qed.

(** Printing an integer and reading its digits back. *)
Lemma mathInt_number_to_string (z : Z) :
  JS.mathInt (JS.number_to_string z) = Some z.
Proof.
  rewrite <- (DecimalZ.of_to z) at 2.
  unfold JS.mathInt, JS.number_to_string, NilZero.string_of_int,
    NilZero.string_of_uint.
  destruct (Z.to_int z) as [d|d]; cbn [Z.of_int].
  - destruct d; try reflexivity;
      cbn [NilEmpty.string_of_uint list_ascii_of_string JS.skip_spaces];
      match goal with
      | |- context [JS.is_space ?c] =>
          change (JS.is_space c) with false; cbv iota
      end;
      match goal with
      | |- JS.read_digits (?c :: list_ascii_of_string (NilEmpty.string_of_uint ?d')) _ _ = _ =>
          change (c :: list_ascii_of_string (NilEmpty.string_of_uint d'))
            with (list_ascii_of_string
                    (NilEmpty.string_of_uint
                       ltac:(match c with
                             | "0"%char => exact (Decimal.D0 d')
                             | "1"%char => exact (Decimal.D1 d')
                             | "2"%char => exact (Decimal.D2 d')
                             | "3"%char => exact (Decimal.D3 d')
                             | "4"%char => exact (Decimal.D4 d')
                             | "5"%char => exact (Decimal.D5 d')
                             | "6"%char => exact (Decimal.D6 d')
                             | "7"%char => exact (Decimal.D7 d')
                             | "8"%char => exact (Decimal.D8 d')
                             | "9"%char => exact (Decimal.D9 d')
                             end)))
      end;
      rewrite read_digits_uint, digits_onto_zero; reflexivity.
  - cbn [list_ascii_of_string JS.skip_spaces].
    change (JS.is_space "-") with false. cbv iota.
    destruct d; try reflexivity;
      rewrite read_digits_uint, digits_onto_zero; reflexivity.
Qed.



End Decimal.

(** ** Listing: echo, adjacent pages, and what an upload adds *)

Section ListingMore.

Import Server.

Variable cfg : Config.

Lemma page_eq (q : Query) (st : State) :
  Listing.page cfg q st
  = map (fun image => describe cfg (filename image) image)
      (take (Z.to_nat (effective_limit q))
         (drop (Z.to_nat (effective_offset q))
            (merge_sort newer_first (images st)))).
Proof. reflexivity. Qed.


Lemma page_may_serve (q : Query) (st : State) :
  Listing.may_serve cfg q st (Listing.page cfg q st).
Proof.
  exists (merge_sort newer_first (images st)).
  split; [|apply page_eq]. split; apply findMany_ordered.
Qed.

(** With distinct timestamps a request has one possible answer. *)
Lemma may_serve_unique (q : Query) (st : State) (items : list Descriptor) :
  NoDup (map uploadedAt (images st)) ->
  Listing.may_serve cfg q st items ->
  items = Listing.page cfg q st.
Proof.
  intros Hnd (sorted & [Hp Hs] & ->). rewrite page_eq. unfold Listing.page_of.
  destruct (findMany_ordered (images st)) as [Hs' Hp'].
  rewrite (sorted_order_unique sorted (merge_sort newer_first (images st)));
    [reflexivity | now rewrite Hp, Hp' | exact Hs | exact Hs' |].
  now rewrite (Permutation_map uploadedAt Hp).
Qed.

(** X7.  Over a table whose creation timestamps are distinct, two
    requests with the same effective limit, the second starting where the
    first ends, are answered with adjacent slices of the one descending
    order, whichever order the database picks for each query: their
    items, one after the other, are the rows from the first offset on,
    twice the limit of them at most; and when the row ids are distinct no
    id occurs twice across the two pages. *)
Theorem adjacent_pages (q1 q2 : Query) (st : State)
    (items1 items2 : list Descriptor) :
  NoDup (map uploadedAt (images st)) ->
  effective_limit q2 = effective_limit q1 ->
  effective_offset q2 = effective_offset q1 + effective_limit q1 ->
  Listing.may_serve cfg q1 st items1 ->
  Listing.may_serve cfg q2 st items2 ->
  items1 = Listing.page cfg q1 st
  /\ items2 = Listing.page cfg q2 st
  /\ items1 ++ items2
     = map (fun image => describe cfg (filename image) image)
         (take (Z.to_nat (2 * effective_limit q1))
            (drop (Z.to_nat (effective_offset q1))
               (merge_sort newer_first (images st))))
  /\ (NoDup (map id (images st)) -> NoDup (map d_id (items1 ++ items2))).
Proof.
  intros Hts El Eo H1 H2.
  apply (may_serve_unique q1 st items1 Hts) in H1 as ->.
  apply (may_serve_unique q2 st items2 Hts) in H2 as ->.
  split; [reflexivity|]. split; [reflexivity|].
  pose proof (effective_limit_bounds q1). pose proof (effective_offset_bounds q1).
  assert (Listing.page cfg q1 st ++ Listing.page cfg q2 st
          = map (fun image => describe cfg (filename image) image)
              (take (Z.to_nat (2 * effective_limit q1))
                 (drop (Z.to_nat (effective_offset q1))
                    (merge_sort newer_first (images st))))) as E.
  { rewrite !page_eq, El, Eo, <- map_app. f_equal.
    replace (Z.to_nat (effective_offset q1 + effective_limit q1))
      with (Z.to_nat (effective_offset q1) + Z.to_nat (effective_limit q1))%nat
      by lia.
    rewrite <- drop_drop, take_take_drop. f_equal. lia. }
  split; [exact E|].
  intros Hnd. rewrite E, map_map. cbn [d_id describe].
  assert (NoDup (map id (merge_sort newer_first (images st)))) as Hsorted.
  { rewrite (Permutation_map id (merge_sort_Permutation newer_first (images st))).
    exact Hnd. }
  assert (map id (take (Z.to_nat (2 * effective_limit q1))
                    (drop (Z.to_nat (effective_offset q1))
                       (merge_sort newer_first (images st))))
          `sublist_of` map id (merge_sort newer_first (images st))) as Hsub.
  { apply (fmap_sublist id).
    etransitivity; [apply sublist_take | apply sublist_drop]. }
  exact (sublist_NoDup _ _ Hsorted Hsub).
Qed.

(** Without distinct timestamps the two pages may overlap: over two rows
    created in the same millisecond, the order [a, b] for the first query
    and the order [b, a] for the second give the row [a] twice and the
    row [b] never. *)
Example tied_pages_may_overlap :
  let q1 := Sample.query (Some "1") (Some "0") in
  let q2 := Sample.query (Some "1") (Some "1") in
  let rows := images Cases.tied_rows in
  Listing.ordering rows [Sample.row "a" 10; Sample.row "b" 10]
  /\ Listing.ordering rows [Sample.row "b" 10; Sample.row "a" 10]
  /\ map d_id (Listing.page_of cfg q1 [Sample.row "a" 10; Sample.row "b" 10]
               ++ Listing.page_of cfg q2 [Sample.row "b" 10; Sample.row "a" 10])
     = ["a"; "a"].
Proof.
  cbv zeta. unfold Listing.ordering. cbn [images Cases.tied_rows].
  repeat split; try reflexivity; try apply perm_swap;
    repeat constructor; unfold newer_first; cbn; lia.
Qed.

(** The newest row heads the ordering. *)
Lemma newest_first_head (rows : list Image) (image : Image) :
  Forall (fun i => uploadedAt i < uploadedAt image) rows ->
  exists rest, merge_sort newer_first (rows ++ [image]) = image :: rest.
Proof.
  intros Hold.
  destruct (findMany_ordered (rows ++ [image])) as [Hs Hp].
  destruct (merge_sort newer_first (rows ++ [image])) as [|h t] eqn:E.
  { apply Permutation_nil_l in Hp. now destruct rows. }
  exists t. f_equal.
  assert (h ∈ rows ++ [image]) as Hh by (rewrite <- Hp; left).
  assert (image ∈ h :: t) as Hi
    by (rewrite Hp; apply elem_of_app; right; constructor).
  apply elem_of_app in Hh as [Hh|Hh]; [|now apply list_elem_of_singleton in Hh].
  apply elem_of_cons in Hi as [Hi|Hi]; [now symmetry|].
  apply StronglySorted_inv in Hs as [_ Ht].
  rewrite Forall_forall in Ht, Hold.
  specialize (Ht image Hi). specialize (Hold h Hh).
  unfold newer_first in Ht. lia.
Qed.

(** X8.  After an upload answered 201 the listing counts one row more, and
    if the new row is strictly newer than every row that was there, any
    page that starts at offset 0 has the uploaded descriptor, as returned
    to the uploader, as its first item. *)
Theorem upload_then_list (env : Env) (req : option Part) (st : State) (q : Query) :
  status (post_uploads cfg env req st).2 = 201 ->
  exists d,
    body (post_uploads cfg env req st).2 = ImageBody d
    /\ Listing.total_of (get_images cfg true q (post_uploads cfg env req st).1).2
       = Listing.total_of (get_images cfg true q st).2 + 1
    /\ (effective_offset q = 0 ->
        Forall (fun i => uploadedAt i < d_uploadedAt d) (images st) ->
        exists rest,
          Listing.page cfg q (post_uploads cfg env req st).1 = d :: rest).
Proof.
  intros Hs.
  destruct (post_uploads cfg env req st) as [st' resp] eqn:E.
  cbn [fst snd] in *.
  assert (exists image,
            images st' = images st ++ [image]
            /\ body resp = ImageBody (describe cfg (filename image) image))
    as (image & Hi & Hb).
  { pose proof (post_uploads_paths cfg env st req) as H.
    destruct req as [p|]; cbn beta iota in H;
      [|rewrite H in E; injection E as <- <-; discriminate Hs].
    repeat case_bool_decide;
      try (rewrite H in E; injection E as <- <-; discriminate Hs).
    destruct (MAX_FILE_SIZE cfg <=? blob_size (content p));
      [rewrite H in E; injection E as <- <-; discriminate Hs|].
    destruct (invalid_image _);
      [destruct H as [msg H]; rewrite H in E; injection E as <- <-; discriminate Hs|].
    destruct (upsert_user env);
      [|rewrite H in E; injection E as <- <-; discriminate Hs].
    destruct (create_image env) as [[new_id at_]|];
      [|rewrite H in E; injection E as <- <-; discriminate Hs].
    destruct H as (image & Himage & H). rewrite H in E. injection E as <- <-.
    exists image. subst image. split; reflexivity. }
  exists (describe cfg (filename image) image). split; [exact Hb|]. split.
  - rewrite !get_images_ok. unfold Listing.total_of, count. cbn [snd body].
    rewrite Hi, length_app. simpl. lia.
  - intros Ho Hold. rewrite page_eq, Ho, Hi. cbn [d_uploadedAt describe] in Hold.
    destruct (newest_first_head (images st) image Hold) as [rest ->].
    pose proof (effective_limit_bounds q).
    destruct (Z.to_nat (effective_limit q)) as [|n] eqn:En; [lia|].
    simpl. eexists. reflexivity.
Qed.

End ListingMore.

(** ** Filename Allocator: when two storage names coincide *)

Section AllocatorInjective.

Import Numeral.

Implicit Types (c : ascii) (l r : list ascii).

Lemma number_to_string_inj (a b : Z) :
  JS.number_to_string a = JS.number_to_string b -> a = b.
Proof.
  intros E. apply (f_equal JS.mathInt) in E.
  rewrite !mathInt_number_to_string in E. now injection E.
Qed.

Lemma uint_chars_digits (d : Decimal.uint) :
  Forall is_digit (list_ascii_of_string (NilEmpty.string_of_uint d)).
Proof. induction d; simpl; constructor; try assumption; discriminate. Qed.

Lemma number_chars_digits (z : Z) :
  0 <= z -> Forall is_digit (list_ascii_of_string (JS.number_to_string z)).
Proof.
  intros Hz. unfold JS.number_to_string, NilZero.string_of_int, NilZero.string_of_uint.
  destruct z as [|p|p]; [| |lia]; cbn [Z.to_int].
  - repeat constructor. discriminate.
  - destruct (Pos.to_uint p); try apply uint_chars_digits.
    repeat constructor. discriminate.
Qed.

(** Two lists that agree, each a run of digits followed by a character
    that is not a digit, agree part by part. *)
Lemma split_at_non_digit l1 c1 r1 l2 c2 r2 :
  Forall is_digit l1 -> Forall is_digit l2 ->
  ~ is_digit c1 -> ~ is_digit c2 ->
  l1 ++ c1 :: r1 = l2 ++ c2 :: r2 ->
  l1 = l2 /\ c1 = c2 /\ r1 = r2.
Proof.
  intros H1. revert l2. induction H1 as [|x l1 Hx _ IH]; intros l2 H2 Hc1 Hc2 E.
  - destruct H2 as [|y l2 Hy _]; simpl in E.
    + now injection E.
    + injection E as -> _. contradiction.
  - destruct H2 as [|y l2 Hy H2]; simpl in E.
    + injection E as -> _. contradiction.
    + injection E as -> E. destruct (IH l2 H2 Hc1 Hc2 E) as (-> & -> & ->). auto.
Qed.

Lemma dash_not_digit : ~ is_digit "-".
Proof. intros H. now apply H. Qed.

Lemma dot_not_digit : ~ is_digit ".".
Proof. intros H. now apply H. Qed.

Lemma lower_extname_chars (o : string) :
  JS.toLowerCase (Path.extname o) = string_of_list_ascii (Allocator.ext o).
Proof.
  unfold JS.toLowerCase, Path.extname, Allocator.ext.
  now rewrite list_ascii_of_string_of_list_ascii.
Qed.

End AllocatorInjective.

(** X9.  For clock values and random draws that are not negative, two
    storage names are equal only if the clock values are equal, the random
    draws are equal and the lower-cased extensions are equal: a collision
    needs the same millisecond and the same draw. *)
Theorem filename_collision (t r t' r' : Z) (o o' : string) :
  0 <= t -> 0 <= r -> 0 <= t' -> 0 <= r' ->
  Allocator.filename t r o = Allocator.filename t' r' o' ->
  t = t' /\ r = r'
  /\ JS.toLowerCase (Path.extname o) = JS.toLowerCase (Path.extname o').
Proof.
  intros Ht Hr Ht' Hr' E.
  apply (f_equal list_ascii_of_string) in E.
  rewrite !filename_chars in E. unfold Allocator.stem in E.
  rewrite <- !app_assoc in E. cbn [app] in E.
  destruct (split_at_non_digit _ _ _ _ _ _
              (number_chars_digits t Ht) (number_chars_digits t' Ht')
              dash_not_digit dash_not_digit E) as (Et & _ & E2).
  assert (t = t') as <-.
  { apply number_to_string_inj.
    rewrite <- (string_of_list_ascii_of_string (JS.number_to_string t)), Et.
    apply string_of_list_ascii_of_string. }
  pose proof (number_chars_digits r Hr) as Dr.
  pose proof (number_chars_digits r' Hr') as Dr'.
  assert (list_ascii_of_string (JS.number_to_string r)
          = list_ascii_of_string (JS.number_to_string r')
          /\ Allocator.ext o = Allocator.ext o') as [Er Ee].
  { destruct (ext_shape o) as [Ho|(e & Ho & _)],
             (ext_shape o') as [Ho'|(e' & Ho' & _)];
      rewrite Ho, Ho' in *.
    - rewrite !app_nil_r in E2. auto.
    - rewrite app_nil_r in E2. rewrite E2 in Dr.
      apply Forall_app in Dr as [_ Dr]. inversion Dr as [|? ? Hd _].
      now destruct (dot_not_digit Hd).
    - rewrite app_nil_r in E2. rewrite <- E2 in Dr'.
      apply Forall_app in Dr' as [_ Dr']. inversion Dr' as [|? ? Hd _].
      now destruct (dot_not_digit Hd).
    - destruct (split_at_non_digit _ _ _ _ _ _ Dr Dr'
                  dot_not_digit dot_not_digit E2) as (-> & _ & ->). auto. }
  split; [reflexivity|]. split.
  - apply number_to_string_inj.
    rewrite <- (string_of_list_ascii_of_string (JS.number_to_string r)), Er.
    apply string_of_list_ascii_of_string.
  - now rewrite !lower_extname_chars, Ee.
Qed.

(** ** CORS allow-list *)

Section CorsFacts.

Import Cors.

Implicit Types (c : ascii) (l : list ascii).

Lemma skip_spaces_split l :
  exists pre, l = pre ++ JS.skip_spaces l
    /\ match JS.skip_spaces l with
       | c :: _ => JS.is_space c = false
       | [] => True
       end.
Proof.
  induction l as [|c l (pre & IH & Hh)]; [now exists []|]. simpl.
  destruct (JS.is_space c) eqn:E.
  - exists (c :: pre). split; [simpl; congruence | exact Hh].
  - exists []. split; [reflexivity | exact E].
Qed.

Lemma skip_spaces_fixed l :
  match l with
  | c :: _ => JS.is_space c = false
  | [] => True
  end ->
  JS.skip_spaces l = l.
Proof. destruct l as [|c l]; simpl; [reflexivity|]. now intros ->. Qed.

Lemma skip_spaces_idem l : JS.skip_spaces (JS.skip_spaces l) = JS.skip_spaces l.
Proof.
  destruct (skip_spaces_split l) as (pre & _ & Hh). now apply skip_spaces_fixed.
Qed.

(** What [trim] leaves has no white space at either end. *)
Lemma trim_idem l : trim (trim l) = trim l.
Proof.
  unfold trim.
  destruct (skip_spaces_split l) as (pre & _ & Hhead).
  set (m := JS.skip_spaces l) in *.
  destruct (skip_spaces_split (rev m)) as (post & Hm & _).
  set (t := JS.skip_spaces (rev m)) in *.
  assert (JS.skip_spaces (rev t) = rev t) as ->.
  { apply skip_spaces_fixed.
    apply (f_equal (@rev ascii)) in Hm. rewrite rev_involutive, rev_app_distr in Hm.
    destruct (rev t) as [|c r]; [exact I|].
    rewrite Hm in Hhead. exact Hhead. }
  rewrite rev_involutive. unfold t. now rewrite skip_spaces_idem.
Qed.

Lemma skip_spaces_no_comma l :
  Forall (fun c => is_comma c = false) l ->
  Forall (fun c => is_comma c = false) (JS.skip_spaces l).
Proof.
  induction 1 as [|c l Hc Hl IH]; simpl; [constructor|].
  destruct (JS.is_space c); [exact IH | now constructor].
Qed.

Lemma trim_no_comma l :
  Forall (fun c => is_comma c = false) l ->
  Forall (fun c => is_comma c = false) (trim l).
Proof.
  intros H. unfold trim.
  apply Forall_rev, skip_spaces_no_comma, Forall_rev, skip_spaces_no_comma, H.
Qed.

Lemma split_commas_no_comma l :
  Forall (Forall (fun c => is_comma c = false)) (split_commas l).
Proof.
  induction l as [|c l IH]; simpl; [repeat constructor|].
  destruct (is_comma c) eqn:E; [now constructor|].
  destruct (split_commas l) as [|piece rest]; [repeat constructor; exact E|].
  inversion IH; subst. constructor; [now constructor | assumption].
Qed.

(** X10.  Whatever [FRONTEND_ORIGIN] holds, every entry of the allow-list
    is not empty, has no comma and has no white space at either end; so
    an origin that has a comma or white space at an end is refused. *)
Theorem allowed_origins_clean (FRONTEND_ORIGIN : option string) :
  Forall clean (allowedOrigins FRONTEND_ORIGIN)
  /\ (forall origin,
        origin <> "" -> ~ clean origin ->
        origin_check (allowedOrigins FRONTEND_ORIGIN) (Some origin)
        = Some (Server.PlainError "Not allowed by CORS")).
Proof.
  assert (Forall clean (allowedOrigins FRONTEND_ORIGIN)) as Hclean.
  { unfold allowedOrigins.
    set (source := match FRONTEND_ORIGIN with
                   | Some s => JS.string_or s default_origin
                   | None => default_origin
                   end).
    apply Forall_forall. intros s Hs.
    apply list_elem_of_filter in Hs as [Hne Hs].
    apply list_elem_of_In, in_map_iff in Hs as (piece & <- & Hp).
    pose proof (split_commas_no_comma (list_ascii_of_string source)) as Hc.
    rewrite Forall_forall in Hc. apply list_elem_of_In in Hp. specialize (Hc _ Hp).
    unfold clean. rewrite list_ascii_of_string_of_list_ascii.
    split; [|split].
    - exact Hne.
    - now apply trim_no_comma.
    - apply trim_idem. }
  split; [exact Hclean|].
  intros origin Hne Hdirty. unfold origin_check.
  rewrite (bool_decide_eq_false_2 _ Hne).
  rewrite bool_decide_eq_false_2; [reflexivity|].
  intros Hin. rewrite Forall_forall in Hclean. now apply Hdirty, Hclean.
Qed.

Lemma split_commas_piece l :
  Forall (fun c => is_comma c = false) l -> split_commas l = [l].
Proof.
  induction 1 as [|c l Hc _ IH]; simpl; [reflexivity|]. now rewrite Hc, IH.
Qed.

Lemma split_commas_app l rest :
  Forall (fun c => is_comma c = false) l ->
  split_commas (l ++ ","%char :: rest) = l :: split_commas rest.
Proof.
  induction 1 as [|c l Hc _ IH]; simpl; [reflexivity|]. now rewrite Hc, IH.
Qed.

Lemma split_join (s : string) (ss : list string) :
  Forall clean (s :: ss) ->
  split_commas (list_ascii_of_string (Server.join_commas (s :: ss)))
  = map list_ascii_of_string (s :: ss).
Proof.
  revert s. induction ss as [|s' ss IH]; intros s H.
  - inversion H as [|? ? (_ & Hc & _) _]; subst. simpl.
    now apply split_commas_piece.
  - inversion H as [|? ? (_ & Hc & _) H']; subst.
    change (Server.join_commas (s :: s' :: ss))
      with (s +:+ "," +:+ Server.join_commas (s' :: ss)).
    rewrite !chars_append. cbn [list_ascii_of_string app].
    rewrite (split_commas_app _ _ Hc), (IH s' H'). reflexivity.
Qed.

Lemma join_nonempty (s : string) (ss : list string) :
  s <> "" -> Server.join_commas (s :: ss) <> "".
Proof.
  intros Hs. destruct ss as [|s' ss]; [exact Hs|].
  change (Server.join_commas (s :: s' :: ss))
    with (s +:+ "," +:+ Server.join_commas (s' :: ss)).
  destruct s; [contradiction | discriminate].
Qed.

(** X11.  Writing a non-empty list of clean origins with commas between
    them into [FRONTEND_ORIGIN] gives back exactly that list as the
    allow-list, in the same order. *)
Theorem allowed_origins_round_trip (origins : list string) :
  origins <> [] ->
  Forall clean origins ->
  allowedOrigins (Some (Server.join_commas origins)) = origins.
Proof.
  intros Hne Hclean. destruct origins as [|s ss]; [contradiction|].
  unfold allowedOrigins, JS.string_or.
  assert (s <> "") as Hs by (inversion Hclean as [|? ? [? _] _]; assumption).
  destruct (decide (Server.join_commas (s :: ss) = "")) as [E|_];
    [now destruct (join_nonempty s ss Hs)|].
  rewrite (split_join s ss Hclean), map_map.
  clear Hne Hs. induction Hclean as [|x xs (Hx & _ & Ht) _ IH]; [reflexivity|].
  cbn [map]. rewrite Ht, string_of_list_ascii_of_string.
  rewrite filter_cons_True by exact Hx. now rewrite IH.
Qed.

End CorsFacts.

(** ** Gallery: what is rendered, and how much a cycle may do *)

Section GalleryInvariants.

Import Gallery Render.

Lemma string_or_nonempty (m : string) : JS.string_or m fallback <> "".
Proof. unfold JS.string_or. destruct (decide (m = "")); [discriminate | assumption]. Qed.

Lemma try_block_running (o : Outcome) : try_block false o <> Returns.
Proof.
  destruct o as [e|[] data]; simpl; try discriminate.
  destruct (member data "items"); discriminate.
Qed.

(** One event delivered to the current, running cycle. *)
Lemma deliver_settled (ev : Event) (h : Cycle) (v : View) :
  cancelled h = false ->
  settled h v ->
  settled (deliver ev h v).1 (deliver ev h v).2.
Proof.
  intros Hc (Herr & Hst). specialize (Hst Hc).
  unfold deliver. destruct ev as [o|], (pending h) as [|n|n] eqn:Hp;
    cbn [fst snd];
    try (split; [exact Herr | intros _; rewrite Hp; exact Hst]).
  - unfold resume. rewrite Hc. pose proof (try_block_running o) as Hr.
    destruct (try_block false o) as [e| |l]; [|contradiction|].
    + unfold catch_block. rewrite Hc.
      destruct (negb _ && _); (split; [|intros _]); cbn; try tauto.
      * intros [= E]. now apply (string_or_nonempty (message e)).
    + split; [|intros _]; cbn; tauto.
  - destruct Hst as [Hl He]. unfold load. rewrite Hc.
    split; [|intros _]; cbn; [discriminate|].
    split; [|reflexivity]. destruct (n =? 0)%nat; [reflexivity | exact Hl].
Qed.

Lemma effect_settled (v : View) : settled (effect v).1 (effect v).2.
Proof. split; [discriminate | intros _; split; reflexivity]. Qed.

(** The rendered state of a reachable component fits its current cycle,
    and every other cycle is cancelled. *)
Lemma reachable_settled (acts : list Action) :
  exists h rest,
    cycles (react_all acts mount) = h :: rest
    /\ Forall (fun c => cancelled c = true) rest
    /\ settled h (view (react_all acts mount)).
Proof.
  unfold react_all. rewrite <- fold_left_rev_right.
  induction (rev acts) as [|a l (h & rest & Hcs & Hrest & Hs)]; simpl.
  - exists (effect initial_view).1, []. repeat split; try constructor; discriminate.
  - set (g := fold_right (fun a g => react a g) mount l) in *.
    destruct a as [| |i ev]; cbn [react].
    + rewrite effect_start, Hcs. simpl.
      exists (attempting 0), (cleanup h :: rest).
      split; [reflexivity|]. split; [constructor; [reflexivity | exact Hrest]|].
      split; [discriminate | intros _; split; reflexivity].
    + rewrite Hcs. simpl. exists (cleanup h), rest. split; [reflexivity|].
      split; [exact Hrest|]. destruct Hs as [He _]. split; [exact He | intros [=]].
    + rewrite Hcs. destruct i as [|i]; simpl.
      * destruct (cancelled h) eqn:Hc.
        -- pose proof (deliver_cancelled ev h (view g) Hc) as (Hv & Hf & _).
           destruct Hs as [He _].
           destruct (deliver ev h (view g)) as [c' v']. simpl in *. subst v'.
           exists c', rest. repeat split; auto. intros E. congruence.
        -- pose proof (deliver_settled ev h (view g) Hc Hs) as Hs'.
           destruct (deliver ev h (view g)) as [c' v']. simpl in *.
           exists c', rest. auto.
      * destruct (rest !! i) as [c|] eqn:Ei; [|exists h, rest; auto].
        pose proof (Forall_lookup_1 _ _ _ _ Hrest Ei) as Hc. simpl in Hc.
        pose proof (deliver_cancelled ev c (view g) Hc) as (Hv & Hf & _).
        destruct (deliver ev c (view g)) as [c' v']. simpl in *. subst v'.
        exists h, (<[i := c']> rest). repeat split; auto; try apply Hs.
        apply Forall_insert; assumption.
Qed.

(** X12.  In every state the component can reach, while the current cycle
    is live (not cancelled, with a request or a timer pending) the
    component renders the loading text; once the current cycle has
    finished, it renders the alert, the empty text or the grid; and the
    error it holds is never the empty string, so a failed cycle always
    shows its alert. *)
Theorem render_follows_cycle (acts : list Action) :
  exists h rest,
    cycles (react_all acts mount) = h :: rest
    /\ (live h -> render (view (react_all acts mount)) = Loading)
    /\ (cancelled h = false -> pending h = Idle ->
        render (view (react_all acts mount)) <> Loading)
    /\ (forall m, error (view (react_all acts mount)) = Some m ->
        m <> ""
        /\ (cancelled h = false ->
            render (view (react_all acts mount)) = Alert m)).
Proof.
  destruct (reachable_settled acts) as (h & rest & Hcs & _ & Herr & Hst).
  exists h, rest. split; [exact Hcs|]. unfold render.
  split; [|split].
  - intros [Hc Hp]. specialize (Hst Hc).
    destruct (pending h); [contradiction| |]; destruct Hst as [-> _]; reflexivity.
  - intros Hc Hp. specialize (Hst Hc). rewrite Hp in Hst. rewrite Hst.
    destruct (error _) as [m|]; [destruct (bool_decide (m = ""))|];
      try discriminate; destruct (items _); discriminate.
  - intros m Hm. split; [intros ->; contradiction|].
    intros Hc. specialize (Hst Hc). rewrite Hm in *.
    destruct (pending h); [|destruct Hst as [_ [=]]..].
    rewrite Hst. case_bool_decide; [subst m; contradiction | reflexivity].
Qed.

End GalleryInvariants.

Section GalleryPace.

Import Gallery Render.

Lemma effect_paced (v : View) : paced (effect v).1.
Proof. exists 0%nat. repeat split; try reflexivity; lia. Qed.

Lemma cleanup_paced (c : Cycle) : paced c -> paced (cleanup c).
Proof. intros (k & Hk & Ht & Hp). exists k. auto. Qed.

Lemma deliver_paced (ev : Event) (c : Cycle) (v : View) :
  paced c -> paced (deliver ev c v).1.
Proof.
  intros (k & Hk & Ht & Hp). unfold deliver.
  destruct ev as [o|], (pending c) as [|n|n] eqn:E; cbn [fst];
    try (exists k; rewrite E; auto).
  - destruct Hp as [-> Hr]. unfold resume.
    destruct (try_block (cancelled c) o) as [e| |l];
      [|exists k; cbn; repeat split; auto; lia..].
    unfold catch_block. destruct (cancelled c);
      [exists k; cbn; repeat split; auto; lia|].
    destruct (negb _); cbn [andb];
      [|exists k; cbn; repeat split; auto; lia].
    destruct (Nat.ltb_spec k 5); [|exists k; cbn; repeat split; auto; lia].
    exists (S k). split; [lia|].
    split; [cbn [timers fst]; rewrite Ht, seq_S, map_app; reflexivity|].
    cbn [pending requests fst]. repeat split; lia.
  - destruct Hp as (-> & Hk1 & Hr). unfold load.
    destruct (cancelled c); exists k; cbn; repeat split; auto; lia.
Qed.

Lemma reachable_paced (acts : list Action) :
  Forall paced (cycles (react_all acts mount)).
Proof.
  unfold react_all. rewrite <- fold_left_rev_right.
  induction (rev acts) as [|a l IH]; simpl.
  - constructor; [apply (effect_paced initial_view) | constructor].
  - set (g := fold_right (fun a g => react a g) mount l) in *.
    assert (Forall paced (cleanup_current (cycles g))) as Hclean.
    { destruct (cycles g) as [|c cs]; [constructor|]. simpl.
      inversion IH; subst. constructor; [now apply cleanup_paced | assumption]. }
    destruct a as [| |i ev]; cbn [react].
    + pose proof (effect_paced (view g)) as He.
      destruct (effect (view g)) as [c v]. simpl. now constructor.
    + exact Hclean.
    + destruct (cycles g !! i) as [c|] eqn:Ei; [|exact IH].
      pose proof (Forall_lookup_1 _ _ _ _ IH Ei) as Hc.
      pose proof (deliver_paced ev c (view g) Hc) as Hc'.
      destruct (deliver ev c (view g)) as [c' v']. simpl in *.
      now apply Forall_insert.
Qed.

Lemma schedule_prefix (k : nat) :
  (k <= 5)%nat -> map delay (seq 0 k) = take k schedule.
Proof.
  intros Hk. do 6 (destruct k as [|k]; [reflexivity|]). lia.
Qed.

(** X13.  In every state the component can reach, each cycle (current or
    superseded) has set at most five timers, whose delays are the first
    ones of 1, 2, 4, 8 and 8 seconds in that order, and has issued at
    most one request more than it has set timers: never more than six. *)
Theorem cycle_budget (acts : list Action) :
  Forall
    (fun c =>
       exists k : nat,
         (k <= 5)%nat
         /\ timers c = take k schedule
         /\ (requests c <= k + 1)%nat
         /\ (requests c <= 6)%nat)
    (cycles (react_all acts mount)).
Proof.
  eapply Forall_impl; [apply reachable_paced|].
  intros c (k & Hk & Ht & Hp). exists k.
  rewrite Ht, schedule_prefix by exact Hk.
  repeat split; try exact Hk;
    destruct (pending c); destruct_and?; lia.
Qed.

End GalleryPace.

(** ** The upload form and the server *)

Section UploadForm.

Import Server.

Lemma validateFile_admitted (cfg : Config) (file : UploadArea.ClientFile) :
  UploadArea.validateFile file = None ->
  blob_size (UploadArea.file_bytes file) < MAX_FILE_SIZE cfg ->
  admitted cfg (UploadArea.form file).
Proof.
  unfold UploadArea.validateFile, admitted. intros Hv Hsize.
  case_bool_decide as Ht; [|discriminate Hv].
  cbn [UploadArea.form fieldname mimetype content].
  repeat split; [exact Ht | exact Hsize].
Qed.

Lemma validateFile_accepts (file : UploadArea.ClientFile) :
  UploadArea.validateFile file = None
  <-> UploadArea.file_type file ∈ UploadArea.ALLOWED_TYPES
      /\ blob_size (UploadArea.file_bytes file) <= UploadArea.MAX_FILE_SIZE.
Proof.
  unfold UploadArea.validateFile. case_bool_decide as Ht; cbn [negb].
  - destruct (Z.ltb_spec UploadArea.MAX_FILE_SIZE
                (blob_size (UploadArea.file_bytes file))).
    + split; [discriminate | lia].
    + split; [auto | reflexivity].
  - split; [discriminate | now intros [? _]].
Qed.

(** X14.  The upload form against multer.  A file that [validateFile]
    accepts and that is shorter than the server's limit is admitted by
    multer: its upload is never answered 413 and is never stopped by the
    mime filter, so a 400 means an invalid image and a 500 a failed
    Prisma call.  The two checks differ at the limit itself: with the
    server's limit at the client's ten megabytes, the client accepts the
    files multer admits and, besides, the files of an allowed type of
    exactly ten megabytes, and those the server answers 413. *)
Theorem client_validation_agrees (cfg : Config) (file : UploadArea.ClientFile) :
  (UploadArea.validateFile file = None ->
   blob_size (UploadArea.file_bytes file) < MAX_FILE_SIZE cfg ->
   forall (env : Env) (st : State),
     let r := (post_uploads cfg env (Some (UploadArea.form file)) st).2 in
     status r <> 413
     /\ (status r = 400 ->
         invalid_image (blob_probe (UploadArea.file_bytes file)) = true)
     /\ (status r = 500 ->
         upsert_user env = None \/ create_image env = None))
  /\ (MAX_FILE_SIZE cfg = UploadArea.MAX_FILE_SIZE ->
      (UploadArea.validateFile file = None <->
       admitted cfg (UploadArea.form file)
       \/ (UploadArea.file_type file ∈ UploadArea.ALLOWED_TYPES
           /\ blob_size (UploadArea.file_bytes file) = UploadArea.MAX_FILE_SIZE))
      /\ (UploadArea.validateFile file = None ->
          blob_size (UploadArea.file_bytes file) = UploadArea.MAX_FILE_SIZE ->
          forall (env : Env) (st : State),
            (post_uploads cfg env (Some (UploadArea.form file)) st).2
            = {| status := 413;
                 body := ErrorBody "File too large. Max 10MB." |})).
Proof.
  split.
  - intros Hv Hsize env st r. subst r.
    destruct (validateFile_admitted cfg file Hv Hsize) as (Hf & Hm & Hs).
    pose proof (post_uploads_paths cfg env st (Some (UploadArea.form file))) as H.
    cbn beta iota in H.
    rewrite (bool_decide_eq_true_2 _ Hf), (bool_decide_eq_true_2 _ Hm) in H.
    destruct (Z.leb_spec (MAX_FILE_SIZE cfg)
                (blob_size (content (UploadArea.form file)))); [lia|].
    cbn [UploadArea.form content] in H.
    destruct (invalid_image (blob_probe (UploadArea.file_bytes file)));
      [destruct H as [msg H]; rewrite H; cbn; repeat split; auto; discriminate|].
    destruct (upsert_user env);
      [|rewrite H; cbn; repeat split; auto; discriminate].
    destruct (create_image env) as [[new_id at_]|];
      [destruct H as (image & _ & H)|];
      rewrite H; cbn; repeat split; auto; discriminate.
  - intros Hmax. split.
    + rewrite validateFile_accepts. unfold admitted.
      cbn [UploadArea.form fieldname mimetype content]. rewrite Hmax.
      change allowed with UploadArea.ALLOWED_TYPES.
      split.
      * intros [Ht Hs].
        destruct (Z.eq_dec (blob_size (UploadArea.file_bytes file))
                    UploadArea.MAX_FILE_SIZE) as [E|E]; [right; auto|].
        left. repeat split; [exact Ht | lia].
      * intros [(_ & Ht & Hs)|[Ht Hs]]; split; try exact Ht; lia.
    + intros Hv Hs env st.
      apply validateFile_accepts in Hv as [Ht _].
      pose proof (post_uploads_paths cfg env st (Some (UploadArea.form file))) as H.
      cbn beta iota in H. cbn [UploadArea.form fieldname mimetype content] in H.
      rewrite (bool_decide_eq_true_2 ("image" = "image") eq_refl) in H.
      rewrite (bool_decide_eq_true_2 _ (Ht : _ ∈ allowed)) in H.
      destruct (Z.leb_spec (MAX_FILE_SIZE cfg)
                  (blob_size (UploadArea.file_bytes file))); [|lia].
      now rewrite H.
Qed.

(** X15.  What [handleFiles] does.  A file that fails [validateFile] is
    never sent: only the error message changes.  An accepted file is sent
    under the field [image] with loading on, and however the request
    settles, loading is off afterwards; [onUploadSuccess] is called
    exactly on an ok response, which leaves no error; every other outcome
    leaves a non-empty error message and no result. *)
Theorem handleFiles_outcomes (file : UploadArea.ClientFile)
    (others : list UploadArea.ClientFile) (u : UploadArea.State) :
  (forall msg,
     UploadArea.validateFile file = Some msg ->
     UploadArea.handleFiles (file :: others) u
     = ({| UploadArea.error := Some msg;
           UploadArea.loading := UploadArea.loading u;
           UploadArea.result := UploadArea.result u |}, None))
  /\ (UploadArea.validateFile file = None ->
      exists u1,
        UploadArea.handleFiles (file :: others) u
        = (u1, Some (UploadArea.form file))
        /\ UploadArea.loading u1 = true
        /\ fieldname (UploadArea.form file) = "image"
        /\ forall o : Gallery.Outcome,
             UploadArea.loading (UploadArea.settle o u1).1 = false
             /\ ((UploadArea.settle o u1).2 = true <->
                 exists data, o = Gallery.Response true data)
             /\ ((UploadArea.settle o u1).2 = true ->
                 UploadArea.error (UploadArea.settle o u1).1 = None)
             /\ ((UploadArea.settle o u1).2 = false ->
                 UploadArea.result (UploadArea.settle o u1).1 = None
                 /\ exists m, UploadArea.error (UploadArea.settle o u1).1 = Some m
                              /\ m <> "")).
Proof.
  split.
  - intros msg Hv. unfold UploadArea.handleFiles. now rewrite Hv.
  - intros Hv. unfold UploadArea.handleFiles. rewrite Hv.
    eexists. split; [reflexivity|]. split; [reflexivity|]. split; [reflexivity|].
    assert (forall m, JS.string_or m UploadArea.fallback <> "") as Hne.
    { intros m. unfold JS.string_or.
      destruct (decide (m = "")); [discriminate | assumption]. }
    intros [e|[] data]; cbn; repeat split; try discriminate; eauto.
    + intros (data & [=]).
    + intros (data' & [=]).
Qed.

End UploadForm.

(** ** Client and server together *)

Section EndToEnd.

Import Server.

Variable iso : Z -> string.

Lemma page_items_member (total limit offset : Z) (items : list Descriptor) :
  Gallery.member (Wire.json_of iso (PageBody total limit offset items)) "items"
  = Some (Some (Gallery.JArr (map (Wire.descriptor iso) items))).
Proof. reflexivity. Qed.

Lemma error_body_message (msg : string) :
  UploadArea.status_message (Wire.json_of iso (ErrorBody msg))
  = JS.string_or msg UploadArea.fallback.
Proof.
  unfold UploadArea.status_message, JS.string_or.
  destruct (decide (msg = "")) as [->|Hne]; [reflexivity|].
  change (Gallery.opt_member (Wire.json_of iso (ErrorBody msg)) "error")
    with (Some (Gallery.JStr msg)).
  cbn. now rewrite (bool_decide_eq_false_2 _ Hne).
Qed.

Lemma string_or_twice (m d : string) :
  JS.string_or (JS.string_or m d) d = JS.string_or m d.
Proof.
  unfold JS.string_or. destruct (decide (m = "")) as [->|Hne].
  - destruct (decide (d = "")); reflexivity.
  - destruct (decide (m = "")); [contradiction | reflexivity].
Qed.

(** X16.  An upload from the form to the server and back.  For a file
    that [validateFile] accepts, sent to [POST /api/v1/uploads]: on a 201
    the form holds the returned descriptor as its result, shows no error
    and calls [onUploadSuccess]; on any other answer it does not call it
    and shows the server's error message (its own fixed text if that
    message is empty); loading is off in both cases. *)
Theorem upload_round_trip (cfg : Config) (env : Env) (st : State)
    (file : UploadArea.ClientFile) (others : list UploadArea.ClientFile)
    (u : UploadArea.State) :
  UploadArea.validateFile file = None ->
  exists u1 part,
    UploadArea.handleFiles (file :: others) u = (u1, Some part)
    /\ let answer := (post_uploads cfg env (Some part) st).2 in
       let done := UploadArea.settle (Wire.receive iso answer) u1 in
       UploadArea.loading done.1 = false
       /\ (status answer = 201 ->
           done.2 = true
           /\ UploadArea.error done.1 = None
           /\ exists d, body answer = ImageBody d
                        /\ UploadArea.result done.1 = Some (Wire.descriptor iso d))
       /\ (status answer <> 201 ->
           done.2 = false
           /\ exists msg, body answer = ErrorBody msg
                          /\ UploadArea.error done.1
                             = Some (JS.string_or msg UploadArea.fallback)).
Proof.
  intros Hv. unfold UploadArea.handleFiles. rewrite Hv.
  eexists _, _. split; [reflexivity|]. cbv zeta.
  pose proof (post_uploads_paths cfg env st (Some (UploadArea.form file))) as H.
  cbn beta iota in H.
  repeat case_bool_decide;
    [destruct (MAX_FILE_SIZE cfg <=? _);
     [|destruct (invalid_image _);
       [destruct H as [msg H]
       |destruct (upsert_user env);
        [destruct (create_image env) as [[new_id at_]|];
         [destruct H as (image & _ & H)|]|]]]| |];
    rewrite H; cbn [snd fst status body Wire.receive Wire.ok
                      UploadArea.settle UploadArea.loading UploadArea.error
                      UploadArea.result Z.leb Z.compare Pos.compare
                      Pos.compare_cont andb negb];
    (split; [reflexivity|]);
    (split; intros Hs; try discriminate Hs; try (now destruct Hs));
    try (split; [reflexivity|]; eexists; split; [reflexivity|];
         rewrite error_body_message, string_or_twice; reflexivity).
  split; [reflexivity|]. split; [reflexivity|]. eexists. split; reflexivity.
Qed.

(** X17.  The gallery against the listing handler.  When the store can be
    read, the first answer to [fetch('/api/v1/images?limit=50')] ends the
    cycle in success with the newest rows as items, at most fifty and
    [min 50 total] of them.  When the store cannot be read six times in a
    row, the cycle ends showing the server's text
    ["Something went wrong!"]. *)
Theorem gallery_round_trip (cfg : Config) (st : State) (v : Gallery.View) :
  effective_limit Wire.gallery_query = 50
  /\ effective_offset Wire.gallery_query = 0
  /\ (Gallery.run_effect
        [Gallery.Settled
           (Wire.receive iso (get_images cfg true Wire.gallery_query st).2)] v).2
     = {| Gallery.items :=
            map (Wire.descriptor iso) (Listing.page cfg Wire.gallery_query st);
          Gallery.error := None;
          Gallery.loading := false |}
  /\ Z.of_nat (length (Listing.page cfg Wire.gallery_query st))
     = Z.min 50 (Z.of_nat (length (images st)))
  /\ (let down :=
        Wire.receive iso (get_images cfg false Wire.gallery_query st).2 in
      (Gallery.run_effect
         (Gallery.retrying [down; down; down; down; down]
          ++ [Gallery.Settled down]) v).2
      = {| Gallery.items := Gallery.items v;
           Gallery.error := Some "Something went wrong!";
           Gallery.loading := false |}).
Proof.
  split; [reflexivity|]. split; [reflexivity|]. split; [|split].
  - rewrite get_images_ok. unfold Wire.receive. cbn [snd status body Wire.ok].
    change ((200 <=? 200) && (200 <=? 299)) with true.
    match goal with
    | |- context [Wire.json_of iso (PageBody ?t ?l ?o ?its)] =>
        pose proof (success_after_retries [] _ _ v (Forall_nil_2 _)
                      ltac:(simpl; lia) (page_items_member t l o its)) as Hs
    end.
    exact (f_equal snd Hs).
  - rewrite page_eq, length_map.
    pose proof (findMany_length (images st) 50 0 ltac:(lia) ltac:(lia)) as H.
    unfold findMany, count in H. change (effective_limit Wire.gallery_query) with 50.
    change (effective_offset Wire.gallery_query) with 0. rewrite H. lia.
  - cbv zeta.
    assert (Gallery.transient
              (Wire.receive iso (get_images cfg false Wire.gallery_query st).2))
      as Ht by (eexists; split; [reflexivity | discriminate]).
    erewrite six_failures; [| repeat constructor; exact Ht | reflexivity | reflexivity].
    reflexivity.
Qed.

End EndToEnd.

(** ** Instances of the properties above *)


Lemma upsert_failure_keeps_stream_witness :
  Server.status
    (Server.post_uploads Sample.cfg Cases.env_no_user (Some Sample.jpeg)
       Sample.empty).2 = 500
  /\ Server.files
       (Server.post_uploads Sample.cfg Cases.env_no_user (Some Sample.jpeg)
          Sample.empty).1 !! Sample.stored_name
     = Some (Server.content Sample.jpeg).
Proof.
  destruct (upsert_failure_keeps_stream Sample.cfg Cases.env_no_user Sample.empty
              Sample.jpeg) as (H1 & _ & H3 & _).
  - split; [reflexivity | split; [constructor | reflexivity]].
  - reflexivity.
  - reflexivity.
  - split; [exact H1 | exact H3].
Defined.

Lemma early_rejections_witness :
  (Server.post_uploads Sample.cfg Sample.env_ok (Some Cases.oversized)
     Cases.one_row).2
  = {| Server.status := 413;
       Server.body := Server.ErrorBody "File too large. Max 10MB." |}
  /\ Server.post_uploads Sample.cfg Sample.env_ok (Some Cases.misnamed)
       Cases.one_row
     = (Cases.one_row,
        {| Server.status := 400; Server.body := Server.ErrorBody "Unexpected field" |}).
Proof.
  destruct (early_rejections Sample.cfg Sample.env_ok Cases.one_row)
    as (_ & Hfield & Hsize).
  split.
  - apply (Hsize Cases.oversized); [reflexivity | constructor | vm_compute; reflexivity].
  - apply Hfield. discriminate.
Defined.

Lemma backed_preserved_witness :
  Store.backed
    (Server.post_uploads Sample.cfg Sample.env_create_fails (Some Sample.jpeg)
       Cases.one_row).1.
Proof.
  apply backed_preserved.
  - constructor; [vm_compute; discriminate | constructor].
  - intros p [= <-]. constructor; [vm_compute; discriminate | constructor].
Defined.


Lemma adjacent_pages_witness :
  map Server.d_id
    (Listing.page Sample.cfg (Sample.query (Some "2") (Some "0")) Sample.three_rows
     ++ Listing.page Sample.cfg (Sample.query (Some "2") (Some "2")) Sample.three_rows)
  = ["b"; "c"; "a"]
  /\ NoDup
       (map Server.d_id
          (Listing.page Sample.cfg (Sample.query (Some "2") (Some "0"))
             Sample.three_rows
           ++ Listing.page Sample.cfg (Sample.query (Some "2") (Some "2"))
                Sample.three_rows)).
Proof.
  assert (NoDup (map Server.uploadedAt (Server.images Sample.three_rows))) as Hts.
  { apply (bool_decide_unpack _). vm_compute. exact I. }
  assert (NoDup (map Server.id (Server.images Sample.three_rows))) as Hids.
  { apply (bool_decide_unpack _). vm_compute. exact I. }
  destruct (adjacent_pages Sample.cfg (Sample.query (Some "2") (Some "0"))
              (Sample.query (Some "2") (Some "2")) Sample.three_rows
              _ _ Hts eq_refl eq_refl
              (page_may_serve Sample.cfg _ Sample.three_rows)
              (page_may_serve Sample.cfg _ Sample.three_rows))
    as (_ & _ & H & Hnd).
  split; [rewrite H; vm_compute; reflexivity | exact (Hnd Hids)].
Defined.

Lemma upload_then_list_witness :
  exists d rest,
    Server.body
      (Server.post_uploads Sample.cfg Sample.env_ok (Some Sample.jpeg)
         Cases.one_row).2 = Server.ImageBody d
    /\ Listing.page Sample.cfg (Sample.query (Some "1") None)
         (Server.post_uploads Sample.cfg Sample.env_ok (Some Sample.jpeg)
            Cases.one_row).1 = d :: rest.
Proof.
  destruct (upload_then_list Sample.cfg Sample.env_ok (Some Sample.jpeg)
              Cases.one_row (Sample.query (Some "1") None))
    as (d & Hb & _ & Hfirst); [reflexivity|].
  assert (d = Server.describe Sample.cfg Sample.stored_name
                {| Server.id := "img-1"; Server.filename := Sample.stored_name;
                   Server.originalName := "page01.JPG";
                   Server.mimeType := "image/jpeg"; Server.size := 2097152;
                   Server.width := Some 800; Server.height := Some 1200;
                   Server.uploadedAt := 1700000000005;
                   Server.userId := "user-1" |}) as Hd.
  { vm_compute in Hb. injection Hb as <-. reflexivity. }
  destruct Hfirst as [rest Hrest]; [reflexivity | |].
  - rewrite Hd. constructor; [vm_compute; reflexivity | constructor].
  - exists d, rest. split; [exact Hb | exact Hrest].
Defined.

Lemma filename_collision_witness :
  1700000000000 = 1700000000000 /\ 42 = 42
  /\ JS.toLowerCase (Path.extname "a.JPG") = JS.toLowerCase (Path.extname "b.jpg").
Proof.
  apply (filename_collision 1700000000000 42 1700000000000 42 "a.JPG" "b.jpg");
    try lia.
  reflexivity.
Defined.

Lemma allowed_origins_clean_witness :
  Cors.origin_check (Cors.allowedOrigins (Some "http://a.example, http://b.example"))
    (Some " http://b.example")
  = Some (Server.PlainError "Not allowed by CORS").
Proof.
  destruct (allowed_origins_clean (Some "http://a.example, http://b.example"))
    as [_ H].
  apply H; [discriminate|]. intros (_ & _ & Ht). vm_compute in Ht. discriminate Ht.
Defined.

Lemma allowed_origins_round_trip_witness :
  Cors.allowedOrigins (Some "http://a.example,https://b.example")
  = ["http://a.example"; "https://b.example"].
Proof.
  apply (allowed_origins_round_trip ["http://a.example"; "https://b.example"]).
  - discriminate.
  - repeat constructor; try discriminate; vm_compute; reflexivity.
Defined.

Lemma render_follows_cycle_witness :
  Render.render
    (Gallery.view (Gallery.react_all [Gallery.Refresh] Gallery.mount))
  = Render.Loading.
Proof.
  destruct (render_follows_cycle [Gallery.Refresh]) as (h & rest & Hcs & Hlive & _).
  apply Hlive. vm_compute in Hcs. injection Hcs as <- _.
  split; [reflexivity | discriminate].
Defined.

Lemma client_validation_agrees_witness :
  Server.status
    (Server.post_uploads Sample.cfg Sample.env_ok
       (Some (UploadArea.form Cases.photo)) Cases.one_row).2 <> 413
  /\ UploadArea.validateFile Cases.ten_megabytes = None
  /\ (Server.post_uploads Sample.cfg Sample.env_ok
        (Some (UploadArea.form Cases.ten_megabytes)) Cases.one_row).2
     = {| Server.status := 413;
          Server.body := Server.ErrorBody "File too large. Max 10MB." |}.
Proof.
  destruct (client_validation_agrees Sample.cfg Cases.photo) as [H _].
  destruct (client_validation_agrees Sample.cfg Cases.ten_megabytes)
    as [_ Hlimit].
  destruct (Hlimit eq_refl) as [_ Hrefused].
  split; [|split].
  - apply (H eq_refl ltac:(reflexivity) Sample.env_ok Cases.one_row).
  - reflexivity.
  - apply (Hrefused eq_refl eq_refl Sample.env_ok Cases.one_row).
Defined.

Lemma handleFiles_outcomes_witness :
  UploadArea.handleFiles [Cases.drawing] UploadArea.initial
  = ({| UploadArea.error := Some "Only JPEG and PNG files are allowed";
        UploadArea.loading := false; UploadArea.result := None |}, None).
Proof.
  destruct (handleFiles_outcomes Cases.drawing [] UploadArea.initial) as [H _].
  apply (H "Only JPEG and PNG files are allowed"). reflexivity.
Defined.

Lemma upload_round_trip_witness :
  exists u1 part,
    UploadArea.handleFiles [Cases.photo] UploadArea.initial = (u1, Some part)
    /\ UploadArea.error
         (UploadArea.settle
            (Wire.receive Cases.stamp
               (Server.post_uploads Sample.cfg Sample.env_create_fails
                  (Some part) Cases.one_row).2) u1).1
       = Some "Something went wrong!".
Proof.
  destruct (upload_round_trip Cases.stamp Sample.cfg Sample.env_create_fails
              Cases.one_row Cases.photo [] UploadArea.initial eq_refl)
    as (u1 & part & Hh & _ & _ & Hfail).
  exists u1, part. split; [exact Hh|].
  injection Hh as <- <-.
  destruct Hfail as (_ & msg & Hb & He); [vm_compute; discriminate|].
  rewrite He. vm_compute in Hb. injection Hb as <-. reflexivity.
Defined.
